(** * E-commerce data-warehouse loader: a shallow embedding of
      [src/python/etl_pipeline.py] and the properties of its specification.

    The development follows the layout of the source file:

    - [PyStr]   : the [str] methods the region normaliser uses
                  ([strip], [lower], [title], the substring test [in]);
    - [PyDict]  : a Python [dict] with its insertion order, which the
                  partial-match loop of the normaliser iterates over;
    - [Region]  : [extract_region_data]'s mapping and [normalize_region_name];
    - [Dim]     : the cached dimension the pipeline looks up and inserts into;
    - [Etl]     : the transformations, the dimension loaders, the fact loader
                  with its per-row [try]/[except], and the end-of-run report.
    - [Frame]   : a data frame by columns, with the column operations the
                  extraction functions call;
    - [Extract] : [extract_sales_data], [extract_product_data] and
                  [extract_region_data] on frames, with their column checks;
    - [Loader]  : relations between two states of the loader, and what the
                  fact loop is expected to admit.

    Text is ASCII: a character is one [ascii] code, letters are A-Z and a-z. *)

From Stdlib Require Import ZArith Ascii.
From stdpp Require Import base gmap strings list pretty.

Local Open Scope Z_scope.

(** ** Python strings *)

Module PyStr.

Definition code (c : ascii) : N := N_of_ascii c.

Definition is_upper (c : ascii) : bool :=
  ((65 <=? code c) && (code c <=? 90))%N.

Definition is_lower (c : ascii) : bool :=
  ((97 <=? code c) && (code c <=? 122))%N.

Definition is_cased (c : ascii) : bool := is_upper c || is_lower c.

(** [str.isspace] on one character: TAB, LF, VT, FF, CR, the four
    separators FS, GS, RS, US, and the blank. *)
Definition is_space (c : ascii) : bool :=
  ((9 <=? code c) && (code c <=? 13) || (28 <=? code c) && (code c <=? 32))%N.

Definition lower_char (c : ascii) : ascii :=
  if is_upper c then ascii_of_N (code c + 32) else c.

Definition upper_char (c : ascii) : ascii :=
  if is_lower c then ascii_of_N (code c - 32) else c.

(** [s.lower()] *)
Fixpoint lower (s : string) : string :=
  match s with
  | EmptyString => EmptyString
  | String c s' => String (lower_char c) (lower s')
  end.

(** [s.lstrip()] *)
Fixpoint lstrip (s : string) : string :=
  match s with
  | EmptyString => EmptyString
  | String c s' => if is_space c then lstrip s' else s
  end.

(** [s.rstrip()]: a character is dropped when it is a space and everything
    after it has been dropped. *)
Fixpoint rstrip (s : string) : string :=
  match s with
  | EmptyString => EmptyString
  | String c s' =>
      match rstrip s' with
      | EmptyString => if is_space c then EmptyString else String c EmptyString
      | r => String c r
      end
  end.

(** [s.strip()] *)
Definition strip (s : string) : string := rstrip (lstrip s).

(** [s.title()]: a character that follows a cased character is lower-cased,
    any other one is upper-cased. *)
Fixpoint title_from (previous_is_cased : bool) (s : string) : string :=
  match s with
  | EmptyString => EmptyString
  | String c s' =>
      let c' := if previous_is_cased then lower_char c else upper_char c in
String c' (title_from (is_cased c) s')
end.

Definition title (s : string) : string := title_from false s.

(** [s.startswith(p)] *)
Fixpoint startswith (p s : string) : bool :=
  match p, s with
  | EmptyString, _ => true
  | String _ _, EmptyString => false
  | String a p', String b s' => if decide (a = b) then startswith p' s' else false
  end.

(** [sub in s] for two strings. *)
Fixpoint contains (sub s : string) : bool :=
  startswith sub s ||
  match s with
  | EmptyString => false
  | String _ s' => contains sub s'
  end.

(** Truth value of a string: [bool(s)]. *)
Definition truthy (s : string) : bool :=
  match s with EmptyString => false | String _ _ => true end.

End PyStr.

(** ** Python dictionaries, with their insertion order *)

Module PyDict.
Section dict.
Context {V : Type}.

(** Items in insertion order; keys are pairwise distinct. *)
Definition t := list (string * V).

Definition empty : t := [].

(** [d[k]] (as [d.get(k)]): the value stored under [k]. *)
Fixpoint get (d : t) (k : string) : option V :=
  match d with
  | [] => None
  | (k', v) :: d' => if decide (k' = k) then Some v else get d' k
  end.

(** [k in d] *)
Definition mem (d : t) (k : string) : bool :=
  match get d k with Some _ => true | None => false end.

(** [d[k] = v]: an existing key keeps its position and takes the new
    value, a new key goes to the end. *)
Fixpoint set (d : t) (k : string) (v : V) : t :=
  match d with
  | [] => [(k, v)]
  | (k', v') :: d' =>
      if decide (k' = k) then (k', v) :: d' else (k', v') :: set d' k v
  end.

(** A dict display [{k1: v1, k2: v2, ...}] or a comprehension evaluates
    its items left to right; [{**d, **e}] does the same with the items
    of [e] on top of [d]. *)
Definition update (d : t) (kvs : list (string * V)) : t :=
  fold_left (fun acc kv => set acc kv.1 kv.2) kvs d.

Definition of_items (kvs : list (string * V)) : t := update empty kvs.

Definition items (d : t) : list (string * V) := d.
Definition keys (d : t) : list string := d.*1.
Definition values (d : t) : list V := d.*2.
End dict.
Arguments t : clear implicits.
End PyDict.

(** ** Values and console output *)

(** A cell of the [region] column as [pandas.read_csv] delivers it: text, or
    NaN where the field is missing; [None] is the null of Python itself. *)
Inductive pyval :=
| PNone
| PNaN
| PStr (s : string).

#[global] Instance pyval_eq_dec : EqDecision pyval.
Proof. solve_decision. Defined.

(** The lines the pipeline prints that the specification talks about. *)
Inductive Msg :=
| MsgNoRegionMatch (region_name : string)
    (* "Avertissement: Aucune correspondance trouvee pour la region: ..." *)
| MsgProcessed (what : string) (n : nat)
    (* "Processed n products" / dates / customers, "Loaded n regions" *)
| MsgLoadedFacts (fact_count : nat)
    (* "Loaded fact_count sales facts" *)
| MsgSkipped (skipped_records : nat).
    (* "Skipped skipped_records records due to missing references" *)

#[global] Instance Msg_eq_dec : EqDecision Msg.
Proof. solve_decision. Defined.

(** [Series.unique()]: the distinct values in order of first appearance. *)
Fixpoint unique_from {A} `{EqDecision A} (seen l : list A) : list A :=
  match l with
  | [] => []
  | x :: l' =>
      if decide (x ∈ seen) then unique_from seen l'
      else x :: unique_from (x :: seen) l'
  end.

Definition unique {A} `{EqDecision A} (l : list A) : list A := unique_from [] l.

(** ** The region normaliser *)

Module Region.
Import PyStr.

(** The dict display of [extract_region_data], item by item (the key
    ['europe central'] is written twice in the source). *)
Definition region_aliases_items : list (string * string) :=
  [ ("europe central", "Europe Central");
    ("east", "Europe East");
    ("west", "Europe West");
    ("north", "North America");
    ("south", "South America");
    ("asia", "Asia Pacific");
    ("emea", "Europe Middle East Africa");
    ("europe", "Europe Central");
    ("america", "North America");
    ("apj", "Asia Pacific");
    ("north america", "North America");
    ("south america", "South America");
    ("europe west", "Europe West");
    ("europe east", "Europe East");
    ("europe central", "Europe Central");
    ("asia pacific", "Asia Pacific");
    ("europe middle east africa", "Europe Middle East Africa") ].

Definition region_aliases : PyDict.t string :=
  PyDict.of_items region_aliases_items.

(** [{region.lower(): region for region in df['region_name'].unique()}],
    after [df['region_name'].str.strip()]. The argument is the
    [region_name] column of the reference data. *)
Definition canonical_regions (region_names : list string) : PyDict.t string :=
  PyDict.of_items
    (map (fun region => (lower region, region)) (unique (map strip region_names))).

(** [{k.lower(): v for k, v in region_aliases.items()}] *)
Definition lowered_aliases : PyDict.t string :=
  PyDict.of_items (map (fun kv => (lower kv.1, kv.2)) (PyDict.items region_aliases)).

(** [{**{k.lower(): v for k, v in region_aliases.items()}, **canonical_regions}] *)
Definition region_mapping (region_names : list string) : PyDict.t string :=
  PyDict.update lowered_aliases (PyDict.items (canonical_regions region_names)).

(** The partial-match loop: the first item, in dict order, whose key is
    contained in the input or contains it. *)
Definition partial_match (region_mapping : PyDict.t string) (region_str : string)
  : option (string * string) :=
  List.find (fun kv => contains kv.1 region_str || contains region_str kv.1)
            (PyDict.items region_mapping).

(** [normalize_region_name(region_name, region_mapping)]: the value
    returned and the lines printed. None of the string operations of the
    [try] block raises, so its [except] branch is never taken. *)
Definition normalize_region_name
    (region_name : pyval) (region_mapping : PyDict.t string) : pyval * list Msg :=
  match region_name with
  | PNone => (PNone, [])
  | PNaN => (PNone, [])
  | PStr s =>
      if negb (truthy s) then (PNone, [])
      else
        let region_str := lower (strip s) in
        match PyDict.get region_mapping region_str with
        | Some value => (PStr value, [])
        | None =>
            match partial_match region_mapping region_str with
            | Some (_, value) => (PStr value, [])
            | None =>
                let title_case := title region_str in
                if decide (title_case ∈ PyDict.values region_mapping)
                then (PStr title_case, [])
                else (PStr (title region_str), [MsgNoRegionMatch s])
            end
        end
  end.

(** The reference data written by [generate_data.py]. *)
Definition sample_region_names : list string :=
  [ "North America"; "North America"; "Europe West"; "Europe West";
    "Europe Central"; "Europe South"; "Europe South"; "Asia Pacific" ].

End Region.

(** ** The cached dimension *)

(** Modelled from the spec: pygrametl's [CachedDimension] is a third-party
    class, absent from the sources. Section 4.2 of the specification gives
    its contract: a dimension owns a cache keyed by the natural key, in front
    of the persisted table; [lookup] checks the cache first and on a cache
    miss queries the warehouse and stores the answer, hit or explicit miss;
    [insert] persists the row under the next surrogate key of the dimension
    and updates the cache. *)
Module Dim.
Section dim.
Context {K : Type} `{Countable K} {A : Type}.

(** The lookup attribute of a row ([lookupatts]). *)
Variable natkey : A → K.

(** A persisted row: the surrogate key and the attributes. *)
Record row := Row { key : Z; data : A }.

(** The persisted table, the cache (a stored [None] is an explicit
    miss) and the last surrogate key handed out. *)
Record t := Make {
  rows : list row;
  cache : gmap K (option Z);
  maxid : Z
}.

(** Modelled from the spec: the query of a cache miss,
    [SELECT key FROM table WHERE natural key = k], first row. *)
Definition select (table : list row) (k : K) : option Z :=
  key <$> List.find (fun r => bool_decide (natkey (data r) = k)) table.

(** Modelled from the spec: the greatest surrogate key of the persisted
    table, 0 for an empty table; the next key is one more. *)
Definition max_key (table : list row) : Z :=
  match table with
  | [] => 0
  | r :: table' => fold_left (fun m r' => Z.max m (key r')) table' (key r)
  end.

(** Modelled from the spec: a dimension opened on a persisted table, with
    a cold cache. *)
Definition connect (table : list row) : t :=
  {| rows := table; cache := ∅; maxid := max_key table |}.

(** Modelled from the spec: whether the cache answers for [k], so that
    a lookup costs no query. *)
Definition cached (d : t) (k : K) : bool :=
  bool_decide (is_Some (cache d !! k)).

(** Modelled from the spec: [lookup(natural_key) -> surrogate_key | null]. *)
Definition lookup (d : t) (k : K) : option Z * t :=
  match cache d !! k with
  | Some keyval => (keyval, d)
  | None =>
      let keyval := select (rows d) k in
      (keyval, {| rows := rows d;
                  cache := <[k := keyval]> (cache d);
                  maxid := maxid d |})
  end.

(** Modelled from the spec: [insert(full_row) -> surrogate_key]. *)
Definition insert (d : t) (a : A) : Z * t :=
  let keyval := maxid d + 1 in
  (keyval, {| rows := rows d ++ [Row keyval a];
              cache := <[natkey a := Some keyval]> (cache d);
              maxid := keyval |}).

(** The two tests the loaders put between [lookup] and [insert]:
    [if not dim.lookup(...)] and [if dim.lookup(...) is None]. *)
Inductive miss_test := NotTruthy | IsNone.

Definition is_miss (test : miss_test) (keyval : option Z) : bool :=
  match test, keyval with
  | _, None => true
  | NotTruthy, Some keyval => bool_decide (keyval = 0)
  | IsNone, Some _ => false
  end.

(** One turn of a dimension-loading loop of [run_etl_pipeline]:
    [if not dim.lookup(...): dim.insert(row)]. *)
Definition load_row (test : miss_test) (d : t) (a : A) : t :=
  let (keyval, d1) := lookup d (natkey a) in
  if is_miss test keyval then (insert d1 a).2 else d1.

(** The whole loop, [for _, row in df.iterrows(): ...]. *)
Definition load (test : miss_test) (d : t) (l : list A) : t :=
  fold_left (load_row test) l d.

(** The persisted rows of natural key [k]. *)
Definition rows_of (d : t) (k : K) : list row :=
  filter (fun r => natkey (data r) = k) (rows d).

(** A natural key that the cache holds with a surrogate key, not as a
    miss. *)
Definition resolved_in_cache (d : t) (k : K) : Prop :=
  ∃ keyval, cache d !! k = Some (Some keyval).

(** The state a dimension is in when its table was filled through
    [lookup] and [insert] only: surrogate keys are positive and at most
    [maxid], a natural key has one row, the cache agrees with the table. *)
Record wf (d : t) : Prop := {
  wf_maxid : 0 ≤ maxid d;
  wf_keys : Forall (fun r => 0 < key r ≤ maxid d) (rows d);
  wf_natkeys : NoDup (map (fun r => natkey (data r)) (rows d));
  wf_cache : map_Forall (fun k keyval => select (rows d) k = keyval) (cache d)
}.
End dim.
Arguments row : clear implicits.
Arguments t K {_ _} A.
End Dim.

(** ** Tables *)

(** The operations of pandas that the pipeline calls on numbers and dates;
    reading files and float64 arithmetic are not interpreted here. [F] is
    the type of a numeric cell, NaN included. *)
Class Pandas (F : Type) := {
  fmul : F → F → F;                 (* the product of two cells *)
  fround2 : F → F;                  (* [.round(2)] *)
  fisnan : F → bool;                (* [pd.isna] *)
  to_datetime : string → option Z   (* [pd.to_datetime] on one cell, as
                                       nanoseconds since the epoch; [None]
                                       when the text is not a date *)
}.

Module Product.
Record t {F : Type} := Make {
  product_id : string;
  product_name : string;
  category : string;
  subcategory : string;
  unit_price : F
}.
Arguments t : clear implicits.
Arguments Make {F}.
End Product.

Module Customer.
Record t := Make {
  customer_id : string;
  customer_name : string;
  segment : string;
  country : string;
  city : string
}.
End Customer.

Module RegionRow.
Record t := Make {
  region_name : string;
  country : string;
  continent : string
}.
End RegionRow.

Module DateRow.
Record t := Make {
  full_date : Z;
  day : Z;
  month : Z;
  year : Z;
  quarter : Z;
  day_of_week : string;
  is_weekend : bool
}.
End DateRow.

(** A row of [sales.csv] as extracted. *)
Module RawSale.
Record t {F : Type} := Make {
  order_id : string;
  product_id : string;
  customer_id : string;
  order_date : string;
  quantity : F;
  unit_price : F;
  discount : F;
  region : pyval
}.
Arguments t : clear implicits.
Arguments Make {F}.
End RawSale.

(** A row of [sales_df] after [transform_sales_data]. *)
Module Sale.
Record t {F : Type} := Make {
  order_id : string;
  product_id : string;
  customer_id : string;
  order_date : Z;
  quantity : F;
  unit_price : F;
  discount : F;
  region : pyval;
  total_amount : F
}.
Arguments t : clear implicits.
Arguments Make {F}.
End Sale.

(** The dict handed to [fact_sales.insert]: a key reference is what the
    lookup returned, so it can hold [None]. *)
Module FactRow.
Record t {F : Type} := Make {
  product_key : option Z;
  date_key : option Z;
  customer_key : option Z;
  region_key : option Z;
  quantity : F;
  unit_price : F;
  discount : F;
  total_amount : F
}.
Arguments t : clear implicits.
Arguments Make {F}.
End FactRow.

(** ** Calendar attributes of a timestamp *)

Module Calendar.
Definition ns_per_day : Z := 86400 * 1000000000.

(** Days since 1970-01-01. *)
Definition days (ts : Z) : Z := ts / ns_per_day.

(** Year, month and day of a day count (proleptic Gregorian calendar). *)
Definition civil (z0 : Z) : Z * Z * Z :=
  let z := z0 + 719468 in
  let era := z / 146097 in
  let doe := z - era * 146097 in
  let yoe := (doe - doe / 1460 + doe / 36524 - doe / 146096) / 365 in
  let doy := doe - (365 * yoe + yoe / 4 - yoe / 100) in
  let mp := (5 * doy + 2) / 153 in
  let d := doy - (153 * mp + 2) / 5 + 1 in
  let m := if mp <? 10 then mp + 3 else mp - 9 in
  let y := yoe + era * 400 + (if m <=? 2 then 1 else 0) in
  (y, m, d).

(** [.dt.dayofweek]: Monday is 0; 1970-01-01 was a Thursday. *)
Definition dayofweek (ts : Z) : Z := (days ts + 3) mod 7.

Definition day_names : list string :=
  ["Monday"; "Tuesday"; "Wednesday"; "Thursday"; "Friday"; "Saturday"; "Sunday"].

(** [.dt.day_name()] *)
Definition day_name (ts : Z) : string :=
  default "" (day_names !! Z.to_nat (dayofweek ts)).
End Calendar.

(** ** Exceptions and the state of a run *)

(** What a statement raises when the database refuses it; the number is the
    position of the statement among those the fact loader sent. *)
Inductive exn := DatabaseError (statement : nat).

Inductive pyresult (A : Type) :=
| Return (a : A)
| Raise (e : exn).
Arguments Return {A} a.
Arguments Raise {A} e.

(** How the body of the fact loop was left for one row. The loop does not
    keep this value: it names the branch taken, for the statements below. *)
Inductive RowExit :=
| ExitInvalidProduct     (* [continue] after the [valid_products] test *)
| ExitUnresolved         (* [continue] after [None in fact_row.values()] *)
| ExitLoaded.            (* the end of the body, after [fact_sales.insert] *)

Inductive RowOutcome :=
| Exited (how : RowExit)
| Caught (e : exn).      (* the [except Exception] branch *)

#[global] Instance exn_eq_dec : EqDecision exn.
Proof. solve_decision. Defined.

#[global] Instance RowExit_eq_dec : EqDecision RowExit.
Proof. solve_decision. Defined.

#[global] Instance RowOutcome_eq_dec : EqDecision RowOutcome.
Proof. solve_decision. Defined.

Module Etl.
Section etl.
Context {F : Type} `{Pandas F}.

(** *** Transformation *)

(** [transform_sales_data], one row: the date is parsed, the total is
    the rounded product of quantity and unit price, taken before the
    unit price is rounded. *)
Definition transform_sale (r : RawSale.t F) : option (Sale.t F) :=
  ts ← to_datetime (RawSale.order_date r);
  Some {| Sale.order_id := RawSale.order_id r;
          Sale.product_id := RawSale.product_id r;
          Sale.customer_id := RawSale.customer_id r;
          Sale.order_date := ts;
          Sale.quantity := RawSale.quantity r;
          Sale.unit_price := fround2 (RawSale.unit_price r);
          Sale.discount := RawSale.discount r;
          Sale.region := RawSale.region r;
          Sale.total_amount :=
            fround2 (fmul (RawSale.quantity r) (RawSale.unit_price r)) |}.

(** [transform_sales_data]: [None] when [pd.to_datetime] raises. *)
Definition transform_sales_data (df : list (RawSale.t F)) : option (list (Sale.t F)) :=
  mapM transform_sale df.

(** [df.drop_duplicates(subset=['customer_id'])]: the first row of each
    customer is kept. *)
Fixpoint drop_duplicates (seen : list string) (df : list Customer.t) : list Customer.t :=
  match df with
  | [] => []
  | c :: df' =>
      if decide (Customer.customer_id c ∈ seen) then drop_duplicates seen df'
      else c :: drop_duplicates (Customer.customer_id c :: seen) df'
  end.

Definition transform_customer_data (df : list Customer.t) : list Customer.t :=
  drop_duplicates [] df.

(** One row of [create_date_dimension]. *)
Definition date_row (full_date : Z) : DateRow.t :=
  let '(y, m, d) := Calendar.civil (Calendar.days full_date) in
  {| DateRow.full_date := full_date;
     DateRow.day := d;
     DateRow.month := m;
     DateRow.year := y;
     DateRow.quarter := (m - 1) / 3 + 1;
     DateRow.day_of_week := Calendar.day_name full_date;
     DateRow.is_weekend :=
       bool_decide (Calendar.dayofweek full_date ∈ [5; 6]) |}.

(** [create_date_dimension]: a row per distinct [order_date]. The
    values are timestamps already, which [pd.to_datetime] returns as
    they are. *)
Definition create_date_dimension (sales_df : list (Sale.t F)) : list DateRow.t :=
  map date_row (unique (map Sale.order_date sales_df)).

(** *** The warehouse and the counters of the fact loop *)

(** The lookup value of a region row. The key the fact loop looks up
    can be the null, which no row has. *)
Definition region_natkey (r : RegionRow.t) : option string :=
  Some (RegionRow.region_name r).

Record World := MkWorld {
  dim_product : Dim.t string (Product.t F);
  dim_date : Dim.t Z DateRow.t;
  dim_customer : Dim.t string Customer.t;
  dim_region : Dim.t (option string) RegionRow.t;
  fact_sales : list (FactRow.t F);
  statements : nat;          (* statements sent by the fact loader *)
  fact_count : nat;
  skipped_records : nat;
  stdout : list Msg
}.

Definition set_dim_product d (w : World) : World :=
  MkWorld d (dim_date w) (dim_customer w) (dim_region w) (fact_sales w)
          (statements w) (fact_count w) (skipped_records w) (stdout w).
Definition set_dim_date d (w : World) : World :=
  MkWorld (dim_product w) d (dim_customer w) (dim_region w) (fact_sales w)
          (statements w) (fact_count w) (skipped_records w) (stdout w).
Definition set_dim_customer d (w : World) : World :=
  MkWorld (dim_product w) (dim_date w) d (dim_region w) (fact_sales w)
          (statements w) (fact_count w) (skipped_records w) (stdout w).
Definition set_dim_region d (w : World) : World :=
  MkWorld (dim_product w) (dim_date w) (dim_customer w) d (fact_sales w)
          (statements w) (fact_count w) (skipped_records w) (stdout w).
Definition set_fact_sales fs (w : World) : World :=
  MkWorld (dim_product w) (dim_date w) (dim_customer w) (dim_region w) fs
          (statements w) (fact_count w) (skipped_records w) (stdout w).
Definition set_statements n (w : World) : World :=
  MkWorld (dim_product w) (dim_date w) (dim_customer w) (dim_region w)
          (fact_sales w) n (fact_count w) (skipped_records w) (stdout w).
Definition set_fact_count n (w : World) : World :=
  MkWorld (dim_product w) (dim_date w) (dim_customer w) (dim_region w)
          (fact_sales w) (statements w) n (skipped_records w) (stdout w).
Definition set_skipped_records n (w : World) : World :=
  MkWorld (dim_product w) (dim_date w) (dim_customer w) (dim_region w)
          (fact_sales w) (statements w) (fact_count w) n (stdout w).
Definition set_stdout out (w : World) : World :=
  MkWorld (dim_product w) (dim_date w) (dim_customer w) (dim_region w)
          (fact_sales w) (statements w) (fact_count w) (skipped_records w) out.

(** *** Dimension loading (the four loops before the fact loop) *)

(** These loops have no [try]: a statement that the database refuses
    there ends the run. They are modelled for the run that goes on. *)

Definition load_products (df : list (Product.t F)) d :=
  Dim.load Product.product_id Dim.NotTruthy d df.
Definition load_dates (df : list DateRow.t) d :=
  Dim.load DateRow.full_date Dim.NotTruthy d df.
Definition load_customers (df : list Customer.t) d :=
  Dim.load Customer.customer_id Dim.NotTruthy d df.
Definition load_regions (df : list RegionRow.t) d :=
  Dim.load region_natkey Dim.IsNone d df.

(** [set(product_df['product_id'].unique())] *)
Definition valid_products_of (product_df : list (Product.t F)) : gset string :=
  list_to_set (unique (map Product.product_id product_df)).

(** *** The fact loop *)

(** A computation of the fact loop: it returns or raises, and in both
    cases leaves the state it reached. *)
Definition M (A : Type) : Type := World → pyresult A * World.

Definition ret {A} (a : A) : M A := fun w => (Return a, w).

Definition bind {A B} (m : M A) (k : A → M B) : M B :=
  fun w =>
    match m w with
    | (Return a, w') => k a w'
    | (Raise e, w') => (Raise e, w')
    end.

Definition modify (f : World → World) : M unit := fun w => (Return tt, f w).

(** [try: body except Exception: handler] *)
Definition try_except {A} (body : M A) (handler : exn → M A) : M A :=
  fun w =>
    match body w with
    | (Return a, w') => (Return a, w')
    | (Raise e, w') => handler e w'
    end.

(** Which statements the database refuses: an arbitrary oracle on the
    position of the statement. *)
Variable db_fails : nat → bool.

(** One statement sent to the database. *)
Definition execute : M unit :=
  fun w =>
    let n := statements w in
    let w' := set_statements (S n) w in
    if db_fails n then (Raise (DatabaseError n), w') else (Return tt, w').

(** A computation preserves a relation when every run of it, returning
    or raising, relates the state it starts in to the state it leaves. *)
Definition preserves (R : relation World) {A} (m : M A) : Prop :=
  ∀ w r w', m w = (r, w') → R w w'.

(** The fact table and the two counters are the same. *)
Definition same_counts : relation World := fun w w' =>
  fact_sales w' = fact_sales w ∧ fact_count w' = fact_count w ∧
  skipped_records w' = skipped_records w.

(** Nothing was printed. *)
Definition same_stdout : relation World := fun w w' => stdout w' = stdout w.

(** The entries of the date cache are kept. *)
Definition dates_kept : relation World := fun w w' =>
  ∀ k keyval, Dim.cache (dim_date w) !! k = Some keyval →
              Dim.cache (dim_date w') !! k = Some keyval.

#[global] Instance M_ret : MRet M := @ret.
#[global] Instance M_bind : MBind M := fun A B k m => bind m k.

(** A lookup of the fact loop: a key that is not in the cache costs a
    statement, which the database may refuse; the answer is that of
    the dimension. *)
Definition lookup_in {K A} `{Countable K} (natkey : A → K)
    (get : World → Dim.t K A) (put : Dim.t K A → World → World)
    (k : K) : M (option Z) :=
  fun w =>
    let answer : M (option Z) := fun w =>
      let (keyval, d) := Dim.lookup natkey (get w) k in (Return keyval, put d w) in
    if Dim.cached (get w) k then answer w
    else (execute;; answer) w.

(** [dim_region.lookup({'region_name': row['region']}, ...)]: the
    region is a name or, when the normaliser found none, the null. *)
Definition lookup_region (region : pyval) : M (option Z) :=
  lookup_in region_natkey dim_region set_dim_region
    match region with
    | PStr region_name => Some region_name
    | PNone | PNaN => None
    end.

Section fact_loop.

(** The mapping stored by [extract_region_data] and the set
    [valid_products] of [run_etl_pipeline]. *)
Variable region_mapping : PyDict.t string.
Variable valid_products : gset string.

(** [row['region'] = normalize_region_name(row['region'], ...)]; the
    warning of the normaliser goes to the console. *)
Definition normalize (region : pyval) : M pyval :=
  fun w =>
    let (normalized, printed) := Region.normalize_region_name region region_mapping in
    (Return normalized, set_stdout (stdout w ++ printed) w).

(** [fact_row] after the four lookups. *)
Record KeyRefs := MkKeyRefs {
  product_key : option Z;
  date_key : option Z;
  customer_key : option Z;
  region_key : option Z
}.

(** The four lookups, in the order of the source. *)
Definition resolve_keys (row : Sale.t F) (region : pyval) : M KeyRefs :=
  pk ← lookup_in Product.product_id dim_product set_dim_product (Sale.product_id row);
  dk ← lookup_in DateRow.full_date dim_date set_dim_date (Sale.order_date row);
  ck ← lookup_in Customer.customer_id dim_customer set_dim_customer (Sale.customer_id row);
  rk ← lookup_region region;
  mret (MkKeyRefs pk dk ck rk).

(** [None in fact_row.values()] *)
Definition has_none (fact_row : KeyRefs) : bool :=
  bool_decide (None ∈ [product_key fact_row; date_key fact_row;
                       customer_key fact_row; region_key fact_row]).

(** [fact_row] with the four measures of the transaction. *)
Definition with_measures (fact_row : KeyRefs) (row : Sale.t F) : FactRow.t F :=
  {| FactRow.product_key := product_key fact_row;
     FactRow.date_key := date_key fact_row;
     FactRow.customer_key := customer_key fact_row;
     FactRow.region_key := region_key fact_row;
     FactRow.quantity := Sale.quantity row;
     FactRow.unit_price := Sale.unit_price row;
     FactRow.discount := Sale.discount row;
     FactRow.total_amount := Sale.total_amount row |}.

(** [fact_sales.insert(fact_row)]: one statement, then the row is in
    the table. *)
Definition insert_fact (fact_row : FactRow.t F) : M unit :=
  execute;; modify (fun w => set_fact_sales (fact_sales w ++ [fact_row]) w).

Definition skip : M unit :=
  modify (fun w => set_skipped_records (S (skipped_records w)) w).

Definition count_fact : M unit :=
  modify (fun w => set_fact_count (S (fact_count w)) w).

(** The body of the [try] block for one row of [sales_df]. *)
Definition fact_body (row : Sale.t F) : M RowExit :=
  if negb (bool_decide (Sale.product_id row ∈ valid_products)) then
    skip;; mret ExitInvalidProduct
  else
    region ← normalize (Sale.region row);
    fact_row ← resolve_keys row region;
    if has_none fact_row then
      skip;; mret ExitUnresolved
    else
      insert_fact (with_measures fact_row row);;
      count_fact;;
      mret ExitLoaded.

(** One turn of the fact loop: the body under its [try]/[except]. *)
Definition process_row (row : Sale.t F) : M RowOutcome :=
  try_except (how ← fact_body row; mret (Exited how))
             (fun e => skip;; mret (Caught e)).

(** [for idx, row in sales_df.iterrows(): ...] *)
Fixpoint load_facts (sales_df : list (Sale.t F)) : M unit :=
  match sales_df with
  | [] => mret tt
  | row :: rest => process_row row;; load_facts rest
  end.

(** The outcome of each row of the loop, in order (not kept by the
    loop; used to state what the counters count). *)
Fixpoint outcomes (sales_df : list (Sale.t F)) (w : World) : list RowOutcome :=
  match sales_df with
  | [] => []
  | row :: rest =>
      match process_row row w with
      | (Return o, w') => o :: outcomes rest w'
      | (Raise _, _) => []
      end
  end.

(** The two prints that close the fact loop. *)
Definition fact_report (fact_count skipped_records : nat) : list Msg :=
  MsgLoadedFacts fact_count ::
  (if bool_decide (0 < skipped_records)%nat then [MsgSkipped skipped_records] else []).

Definition print_fact_report : M unit :=
  modify (fun w =>
    set_stdout (stdout w ++ fact_report (fact_count w) (skipped_records w)) w).

End fact_loop.

(** *** The pipeline *)

(** The four extracts, as the readers deliver them. *)
Record Extract := MkExtract {
  sales : list (RawSale.t F);
  customers : list Customer.t;
  products : list (Product.t F);
  regions : list RegionRow.t
}.

(** The persisted tables when the run starts. *)
Record Tables := MkTables {
  t_product : list (Dim.row (Product.t F));
  t_date : list (Dim.row DateRow.t);
  t_customer : list (Dim.row Customer.t);
  t_region : list (Dim.row RegionRow.t);
  t_fact : list (FactRow.t F)
}.

(** [extract_region_data]: the region names are stripped in the frame,
    and the mapping is built from them. *)
Definition extract_region_data (df : list RegionRow.t)
  : list RegionRow.t * PyDict.t string :=
  (map (fun r => {| RegionRow.region_name := PyStr.strip (RegionRow.region_name r);
                    RegionRow.country := RegionRow.country r;
                    RegionRow.continent := RegionRow.continent r |}) df,
   Region.region_mapping (map RegionRow.region_name df)).

(** The loading phase before the fact loop: the four dimensions are
    opened on the persisted tables and loaded, the counters are zero. *)
Definition load_dimensions (tables : Tables) (product_df : list (Product.t F))
    (date_df : list DateRow.t) (customer_df : list Customer.t)
    (region_df : list RegionRow.t) : World :=
  {| dim_product := load_products product_df (Dim.connect (t_product tables));
     dim_date := load_dates date_df (Dim.connect (t_date tables));
     dim_customer := load_customers customer_df (Dim.connect (t_customer tables));
     dim_region := load_regions region_df (Dim.connect (t_region tables));
     fact_sales := t_fact tables;
     statements := 0;
     fact_count := 0;
     skipped_records := 0;
     stdout := [ MsgProcessed "products" (length product_df);
                 MsgProcessed "dates" (length date_df);
                 MsgProcessed "customers" (length customer_df);
                 MsgProcessed "regions" (length region_df) ] |}.

(** [run_etl_pipeline] from the extracts on: transformation, the four
    dimension loops, the fact loop and its report. [None] is a run that
    [pd.to_datetime] aborts. *)
Definition run_etl_pipeline (tables : Tables) (ex : Extract) : option World :=
  let '(region_df, region_mapping) := extract_region_data (regions ex) in
  sales_df ← transform_sales_data (sales ex);
  let customer_df := transform_customer_data (customers ex) in
  let date_df := create_date_dimension sales_df in
  let w := load_dimensions tables (products ex) date_df customer_df region_df in
  let valid_products := valid_products_of (products ex) in
  Some ((load_facts region_mapping valid_products sales_df;;
         print_fact_report) w).2.

(** *** Counting outcomes *)

(** The rows of a batch that left the body through a given exit, and
    those whose body raised. *)
Definition count_exits (how : RowExit) (os : list RowOutcome) : nat :=
  length (filter (fun o => o = Exited how) os).

Definition is_caught (o : RowOutcome) : bool :=
  match o with Caught _ => true | Exited _ => false end.

Definition count_caught (os : list RowOutcome) : nat :=
  length (filter (fun o => is_caught o = true) os).
End etl.
Arguments World : clear implicits.
Arguments KeyRefs : clear implicits.
Arguments Extract : clear implicits.
Arguments Tables : clear implicits.
End Etl.

(** ** Sample data *)

(** An instance for running the pipeline on sample data: a number is NaN or
    an amount in hundredths, a date is written YYYY-MM-DD. *)
Module Sample.
Inductive num := NaN | Num (hundredths : Z).

#[global] Instance num_eq_dec : EqDecision num.
Proof. solve_decision. Defined.

Definition mul (a b : num) : num :=
  match a, b with
  | Num x, Num y => Num ((x * y + 50) / 100)
  | _, _ => NaN
  end.

Definition isnan (a : num) : bool :=
  match a with NaN => true | Num _ => false end.

Definition digit (c : ascii) : option Z :=
  let n := Z.of_N (N_of_ascii c) in
  if (48 <=? n) && (n <=? 57) then Some (n - 48) else None.

(** Days since 1970-01-01 of a civil date. *)
Definition days_from_civil (y m d : Z) : Z :=
  let y := if m <=? 2 then y - 1 else y in
  let era := y / 400 in
  let yoe := y - era * 400 in
  let doy := (153 * (if 2 <? m then m - 3 else m + 9) + 2) / 5 + d - 1 in
  let doe := yoe * 365 + yoe / 4 - yoe / 100 + doy in
  era * 146097 + doe - 719468.

Definition parse_date (s : string) : option Z :=
  match s with
  | String y1 (String y2 (String y3 (String y4 (String "-"
      (String m1 (String m2 (String "-" (String d1 (String d2 EmptyString))))))))) =>
      a ← digit y1; b ← digit y2; c ← digit y3; d ← digit y4;
      e ← digit m1; f ← digit m2; g ← digit d1; h ← digit d2;
      Some (days_from_civil (1000 * a + 100 * b + 10 * c + d) (10 * e + f) (10 * g + h)
            * Calendar.ns_per_day)
  | _ => None
  end.

#[global] Instance pandas : Pandas num :=
  {| fmul := mul; fround2 := id; fisnan := isnan; to_datetime := parse_date |}.

Definition products : list (Product.t num) :=
  [ Product.Make "P1" "Phone" "Technology" "Smartphones" (Num 19999);
    Product.Make "P2" "Chair" "Furniture" "Chairs" (Num 4950);
    Product.Make "P3" "Paper" "Office Supplies" "Paper" (Num 399) ].

Definition customers : list Customer.t :=
  [ Customer.Make "C1" "Customer 1" "Consumer" "USA" "Chicago";
    Customer.Make "C2" "Customer 2" "Corporate" "France" "Lyon";
    Customer.Make "C1" "Customer 1 bis" "Consumer" "USA" "Houston" ].

Definition regions : list RegionRow.t :=
  [ RegionRow.Make "North America" "USA" "North America";
    RegionRow.Make "North America" "Canada" "North America";
    RegionRow.Make "Europe West" "France" "Europe";
    RegionRow.Make "Europe Central" "Germany" "Europe" ].

Definition sale (order_id product_id customer_id order_date : string)
    (quantity unit_price discount : num) (region : pyval) : RawSale.t num :=
  RawSale.Make order_id product_id customer_id order_date
               quantity unit_price discount region.

Definition empty_tables : Etl.Tables num := Etl.MkTables [] [] [] [] [].

(** A database that accepts every statement, and one that refuses the
    first statement only. *)
Definition no_fault : nat → bool := fun _ => false.
Definition first_fails : nat → bool := fun n => bool_decide (n = 0%nat).

(** A transformed row of [sales_df]: two units of P1 on 2024-02-29. *)
Definition row (product_id customer_id : string) (discount : num) (region : pyval)
  : Sale.t num :=
  Sale.Make "S1" product_id customer_id (19782 * Calendar.ns_per_day)
            (Num 200) (Num 19999) discount region (Num 39998).

Definition region_mapping : PyDict.t string :=
  (Etl.extract_region_data regions).2.

Definition valid_products : gset string := Etl.valid_products_of products.

(** The state before the fact loop, for a batch [sales_df]. *)
Definition loaded (sales_df : list (Sale.t num)) : Etl.World num :=
  Etl.load_dimensions empty_tables products
    (Etl.create_date_dimension sales_df)
    (Etl.transform_customer_data customers)
    (Etl.extract_region_data regions).1.

(** The fact loop and its report on a batch, from that state. *)
Definition run (db_fails : nat → bool) (sales_df : list (Sale.t num)) : Etl.World num :=
  ((Etl.load_facts db_fails region_mapping valid_products sales_df;;
    Etl.print_fact_report) (loaded sales_df)).2.

Definition run_outcomes (db_fails : nat → bool) (sales_df : list (Sale.t num))
  : list RowOutcome :=
  Etl.outcomes db_fails region_mapping valid_products sales_df (loaded sales_df).

(** Two batches of one row: the first row names an unknown product, the
    second a known product and an unknown customer. *)
Definition unknown_product_batch : list (Sale.t num) :=
  [row "P4" "C1" (Num 0) (PStr "north")].

Definition unknown_customer_batch : list (Sale.t num) :=
  [row "P1" "C9" (Num 0) (PStr "north")].

(** A row of [sales.csv] as extracted, with its discount missing. *)
Definition raw_sale_without_discount : RawSale.t num :=
  sale "S1" "P1" "C1" "2024-02-29" (Num 200) (Num 19999) NaN (PStr "north").
End Sample.

(** ** Extraction: frames and their column checks *)

(** A frame as a reader delivers it: its columns in order, each with its
    name and its cells. The readers give distinct names to the columns. *)
Module Frame.
Section frame.
Context {C : Type}.

Definition t := list (string * list C).

(** [df.columns] *)
Definition columns (df : t) : list string := df.*1.

(** [len(df)] *)
Definition nrows (df : t) : nat :=
  match df with
  | [] => 0%nat
  | column :: _ => length column.2
  end.

(** [col in df.columns] *)
Definition has_column (df : t) (col : string) : bool :=
  bool_decide (col ∈ columns df).

(** [df[col]] *)
Fixpoint column (df : t) (col : string) : option (list C) :=
  match df with
  | [] => None
  | (name, cells) :: df' => if decide (name = col) then Some cells else column df' col
  end.

(** [df.rename(columns={old: new})] *)
Definition rename (old new : string) (df : t) : t :=
  map (fun column => (if decide (column.1 = old) then new else column.1, column.2)) df.

(** [[col for col in required_columns if col not in df.columns]] *)
Definition missing (required_columns : list string) (df : t) : list string :=
  filter (fun col => col ∉ columns df) required_columns.

(** [df[cols]], for columns that the frame has. *)
Definition select (df : t) (cols : list string) : t :=
  omap (fun col => (fun cells => (col, cells)) <$> column df col) cols.

(** [df[col] = f(df[col])], cell by cell. *)
Definition map_column (col : string) (f : C → C) (df : t) : t :=
  map (fun column => (column.1, if decide (column.1 = col) then map f column.2 else column.2)) df.
End frame.
Arguments t : clear implicits.
End Frame.

(** What an extraction function gives: a frame, or the [ValueError] it
    raises. *)
Inductive extracted (A : Type) :=
| Extracted (df : A)
| ValueError (message : string).
Arguments Extracted {A} df.
Arguments ValueError {A} message.

Module Extract.

(** [", ".join(...)] *)
Definition join (l : list string) : string := String.concat ", " l.

Definition sales_required_columns : list string :=
  ["order_id"; "product_id"; "customer_id"; "order_date";
   "quantity"; "unit_price"; "discount"; "region"].

(** [extract_sales_data], from the frame that [pd.read_csv] returns: the
    frame or the error, and the lines printed. *)
Definition extract_sales_data {C} (df : Frame.t C) : extracted (Frame.t C) * list string :=
  let available := "Colonnes disponibles dans sales.csv: " +:+ join (Frame.columns df) in
  let renamed := Frame.has_column df "sale_id" && negb (Frame.has_column df "order_id") in
  let df := if renamed then Frame.rename "sale_id" "order_id" df else df in
  let printed :=
    if renamed
    then [available; "Remarque: La colonne 'sale_id' a ete renommee en 'order_id'"]
    else [available] in
  match Frame.missing sales_required_columns df with
  | [] =>
      let df := Frame.select df sales_required_columns in
      (Extracted df,
       printed ++ ["Donnees de vente extraites avec succes: " +:+ pretty (Frame.nrows df)
                   +:+ " enregistrements"])
  | missing_columns =>
      let message := "Colonnes requises manquantes dans les donnees de vente: "
                     +:+ join missing_columns in
      (ValueError message,
       printed ++ ["[ERROR] Erreur lors de l'extraction des donnees de vente: " +:+ message])
  end.

Definition product_required_columns : list string :=
  ["product_id"; "product_name"; "category"; "subcategory"; "unit_price"].

(** [extract_product_data]: the whole frame, when it has the five columns. *)
Definition extract_product_data {C} (df : Frame.t C) : extracted (Frame.t C) :=
  match Frame.missing product_required_columns df with
  | [] => Extracted df
  | missing_columns =>
      ValueError ("Missing required columns in products data: " +:+ join missing_columns)
  end.

Definition region_required_columns : list string :=
  ["region_name"; "country"; "continent"].

(** [extract_region_data], from the frame that [pd.read_excel] returns:
    the frame with its region names stripped and the mapping stored for
    the normaliser, or the error; and the lines printed. *)
Definition extract_region_data (df : Frame.t string)
  : extracted (Frame.t string * PyDict.t string) * list string :=
  let available := "Colonnes disponibles dans regions.xlsx: " +:+ join (Frame.columns df) in
  let renamed := Frame.has_column df "region" && negb (Frame.has_column df "region_name") in
  let df := if renamed then Frame.rename "region" "region_name" df else df in
  let printed :=
    if renamed
    then [available; "Remarque: La colonne 'region' a ete renommee en 'region_name'"]
    else [available] in
  match Frame.missing region_required_columns df with
  | [] =>
      let region_mapping := Region.region_mapping (default [] (Frame.column df "region_name")) in
      let df := Frame.map_column "region_name" PyStr.strip df in
      let region_names := default [] (Frame.column df "region_name") in
      (Extracted (df, region_mapping),
       printed ++ ["Donnees de region extraites avec succes: " +:+ pretty (Frame.nrows df)
                   +:+ " enregistrements";
                   "Regions disponibles: " +:+ join (unique region_names)])
  | missing_columns =>
      let message := "Colonnes requises manquantes dans les donnees de region: "
                     +:+ join missing_columns in
      (ValueError message,
       printed ++ ["[ERROR] Erreur lors de l'extraction des donnees de region: " +:+ message])
  end.

(** The rows of a frame of regions, as the loading loop reads them. *)
Definition region_rows (df : Frame.t string) : list RegionRow.t :=
  match Frame.column df "region_name", Frame.column df "country", Frame.column df "continent" with
  | Some names, Some countries, Some continents =>
      zip_with (fun name cc => RegionRow.Make name cc.1 cc.2) names (zip countries continents)
  | _, _, _ => []
  end.
End Extract.

(** ** Relations and summaries for the fact loop *)

Module Loader.
Section loader.
Context {F : Type}.
Import Etl.

(** The entries of a cache are kept. *)
Definition cache_kept {K A} `{Countable K} (d d' : Dim.t K A) : Prop :=
  ∀ k keyval, Dim.cache d !! k = Some keyval → Dim.cache d' !! k = Some keyval.

(** The persisted part of a dimension is the same. *)
Definition table_same {K A} `{Countable K} (d d' : Dim.t K A) : Prop :=
  Dim.rows d' = Dim.rows d ∧ Dim.maxid d' = Dim.maxid d.

(** The four dimension tables are the same. *)
Definition same_tables : relation (World F) := fun w w' =>
  table_same (dim_product w) (dim_product w') ∧
  table_same (dim_date w) (dim_date w') ∧
  table_same (dim_customer w) (dim_customer w') ∧
  table_same (dim_region w) (dim_region w').

(** The entries of the four caches are kept. *)
Definition caches_kept : relation (World F) := fun w w' =>
  cache_kept (dim_product w) (dim_product w') ∧
  cache_kept (dim_date w) (dim_date w') ∧
  cache_kept (dim_customer w) (dim_customer w') ∧
  cache_kept (dim_region w) (dim_region w').

(** The four dimensions are in a well-formed state. *)
Definition dims_wf (w : World F) : Prop :=
  Dim.wf Product.product_id (dim_product w) ∧
  Dim.wf DateRow.full_date (dim_date w) ∧
  Dim.wf Customer.customer_id (dim_customer w) ∧
  Dim.wf region_natkey (dim_region w).

(** Well-formedness of the dimensions is kept. *)
Definition wf_kept : relation (World F) := fun w w' => dims_wf w → dims_wf w'.

(** The statements sent: none is taken back, at most [n] are added. *)
Definition sends_at_most (n : nat) : relation (World F) := fun w w' =>
  (statements w ≤ statements w' ≤ statements w + n)%nat.

(** A computation of the fact loop that sends at most [n] statements. *)
Definition spends (n : nat) {A} (m : M (F:=F) A) : Prop :=
  ∀ w r w', m w = (r, w') → sends_at_most n w w'.

(** The natural key under which the fact loop looks a region up. *)
Definition region_lookup_key (region : pyval) : option string :=
  match region with
  | PStr region_name => Some region_name
  | PNone | PNaN => None
  end.

(** The four surrogate keys that the dimension tables of a state hold for
    a transaction, when its product is valid and the tables hold all four;
    the fact row made of them and of the measures of the transaction. *)
Definition admitted_fact (region_mapping : PyDict.t string) (valid_products : gset string)
    (w : World F) (row : Sale.t F) : option (FactRow.t F) :=
  if bool_decide (Sale.product_id row ∈ valid_products) then
    let region := (Region.normalize_region_name (Sale.region row) region_mapping).1 in
    pk ← Dim.select Product.product_id (Dim.rows (dim_product w)) (Sale.product_id row);
    dk ← Dim.select DateRow.full_date (Dim.rows (dim_date w)) (Sale.order_date row);
    ck ← Dim.select Customer.customer_id (Dim.rows (dim_customer w)) (Sale.customer_id row);
    rk ← Dim.select region_natkey (Dim.rows (dim_region w)) (region_lookup_key region);
    Some (with_measures (MkKeyRefs (Some pk) (Some dk) (Some ck) (Some rk)) row)
  else None.

(** The way a transaction leaves the body of the loop when the database
    refuses nothing: loaded when the tables hold its four keys, otherwise
    rejected for its product or for an unresolved reference. *)
Definition expected_exit (region_mapping : PyDict.t string) (valid_products : gset string)
    (w : World F) (row : Sale.t F) : RowExit :=
  match admitted_fact region_mapping valid_products w row with
  | Some _ => ExitLoaded
  | None =>
      if bool_decide (Sale.product_id row ∈ valid_products)
      then ExitUnresolved else ExitInvalidProduct
  end.

(** A transaction whose product and customer are in the extracts and whose
    region is normalised to a name of the reference data. *)
Definition references_known (ex : Extract F) (row : Sale.t F) : Prop :=
  Sale.product_id row ∈ map Product.product_id (products ex) ∧
  Sale.customer_id row ∈ map Customer.customer_id (customers ex) ∧
  region_lookup_key
    (Region.normalize_region_name (Sale.region row) (extract_region_data (regions ex)).2).1
  ∈ map region_natkey (extract_region_data (regions ex)).1.

#[global] Instance references_known_dec ex row : Decision (references_known ex row).
Proof. unfold references_known. apply _. Defined.
End loader.
End Loader.

(** * Properties *)

(** ** Calendar checks *)

Example calendar_leap_day :
  (* 2024-02-29 is day 19782 *)
  Calendar.civil 19782 = (2024, 2, 29) ∧
  Calendar.day_name (19782 * Calendar.ns_per_day) = "Thursday".
Proof. split; reflexivity. Qed.

Example calendar_epoch :
  Calendar.civil 0 = (1970, 1, 1) ∧ Calendar.civil (-1) = (1969, 12, 31) ∧
  Calendar.civil 11016 = (2000, 2, 29) ∧ Calendar.civil 20033 = (2024, 11, 6).
Proof. repeat split; reflexivity. Qed.

Example parse_date_roundtrip :
  Sample.parse_date "2024-02-29" = Some (19782 * Calendar.ns_per_day) ∧
  Sample.parse_date "29/02/2024" = None.
Proof. split; reflexivity. Qed.

(** ** Strings *)

Section strings.
Import PyStr.

Lemma lower_empty s : lower s = "" → s = "".
Proof. destruct s; [done | discriminate]. Qed.

Lemma strip_nonempty s : strip s ≠ "" → s ≠ "".
Proof. intros Hs ->. by apply Hs. Qed.

Lemma contains_empty s : contains "" s = true.
Proof. by destruct s. Qed.

Lemma truthy_nonempty s : s ≠ "" → truthy s = true.
Proof. by destruct s. Qed.
End strings.

(** ** Dictionaries *)

Section dicts.
Context {V : Type}.
Implicit Types (d : PyDict.t V) (kvs : list (string * V)) (k : string) (v : V).

Lemma get_set d k v k' :
  PyDict.get (PyDict.set d k v) k' = if decide (k = k') then Some v else PyDict.get d k'.
Proof.
  induction d as [|[k0 v0] d IH]; simpl.
  - repeat case_decide; congruence.
  - repeat (case_decide; simpl); try congruence.
Qed.

Lemma update_snoc d kvs k v :
  PyDict.update d (kvs ++ [(k, v)]) = PyDict.set (PyDict.update d kvs) k v.
Proof. unfold PyDict.update. by rewrite fold_left_app. Qed.

Lemma get_Some_elem_of d k v : PyDict.get d k = Some v → (k, v) ∈ d.
Proof.
  induction d as [|[k0 v0] d IH]; simpl; [done |].
  case_decide; intros Hg.
  - injection Hg as ->. subst. apply list_elem_of_here.
  - apply list_elem_of_further. auto.
Qed.

Lemma elem_of_set d k v k' v' :
  (k', v') ∈ PyDict.set d k v → (k', v') ∈ d ∨ (k', v') = (k, v).
Proof.
  induction d as [|[k0 v0] d IH]; simpl.
  - intros Hin%list_elem_of_singleton. by right.
  - case_decide; subst; rewrite !elem_of_cons; naive_solver.
Qed.

Lemma elem_of_update d kvs k v :
  (k, v) ∈ PyDict.update d kvs → (k, v) ∈ d ∨ (k, v) ∈ kvs.
Proof.
  induction kvs as [|[k0 v0] kvs IH] using rev_ind; [by left |].
  rewrite update_snoc. intros [Hin | ->]%elem_of_set.
  - destruct (IH Hin); [by left | right]. apply elem_of_app. by left.
  - right. apply elem_of_app. right. apply list_elem_of_here.
Qed.

(** A key written by an update reads as one of the values written. *)
Lemma get_update_elem_of d kvs k :
  k ∈ kvs.*1 → ∃ v, PyDict.get (PyDict.update d kvs) k = Some v ∧ (k, v) ∈ kvs.
Proof.
  induction kvs as [|[k0 v0] kvs IH] using rev_ind; [by intros ?%elem_of_nil |].
  rewrite fmap_app, update_snoc, get_set. simpl.
  intros Hin. case_decide as Hk.
  - subst. exists v0. split; [done |]. apply elem_of_app. right. apply list_elem_of_here.
  - apply elem_of_app in Hin as [Hin | Hin%list_elem_of_singleton]; [| congruence].
    destruct (IH Hin) as (v & Hg & Hv). exists v. split; [done |].
    apply elem_of_app. by left.
Qed.

(** A key that an update does not write keeps its value. *)
Lemma get_update_not_elem_of d kvs k :
  k ∉ kvs.*1 → PyDict.get (PyDict.update d kvs) k = PyDict.get d k.
Proof.
  induction kvs as [|[k0 v0] kvs IH] using rev_ind; [done |].
  rewrite fmap_app, update_snoc, get_set. simpl. intros Hin.
  rewrite not_elem_of_app, list_elem_of_singleton in Hin. destruct Hin as [Hin Hne].
  case_decide; [congruence | auto].
Qed.

Lemma set_not_nil d k v : PyDict.set d k v ≠ [].
Proof. destruct d as [|[k0 v0] d]; simpl; [done |]. by case_decide. Qed.

Lemma set_head k0 v0 d k v :
  ∃ v1 d1, PyDict.set ((k0, v0) :: d) k v = (k0, v1) :: d1.
Proof. simpl. case_decide; eauto. Qed.

(** An update keeps the first key of a dict in first position. *)
Lemma update_head k0 v0 d kvs :
  ∃ v1 d1, PyDict.update ((k0, v0) :: d) kvs = (k0, v1) :: d1.
Proof.
  induction kvs as [|[k v] kvs IH] using rev_ind; [by eexists _, _ |].
  rewrite update_snoc. destruct IH as (v1 & d1 & ->). apply set_head.
Qed.
End dicts.

Section uniques.
Context {A : Type} `{EqDecision A}.

Lemma elem_of_unique_from (seen l : list A) x :
  x ∈ unique_from seen l ↔ x ∈ l ∧ x ∉ seen.
Proof.
  revert seen. induction l as [|y l IH]; intros seen; simpl.
  - rewrite elem_of_nil. naive_solver.
  - case_decide as Hy.
    + rewrite IH, elem_of_cons. naive_solver.
    + rewrite !elem_of_cons, IH, not_elem_of_cons.
      destruct (decide (x = y)); naive_solver.
Qed.

Lemma elem_of_unique (l : list A) x : x ∈ unique l ↔ x ∈ l.
Proof. unfold unique. rewrite elem_of_unique_from, elem_of_nil. naive_solver. Qed.

Lemma NoDup_unique_from (seen l : list A) : NoDup (unique_from seen l).
Proof.
  revert seen. induction l as [|y l IH]; intros seen; simpl; [constructor |].
  case_decide; [done |]. constructor; [| done].
  rewrite elem_of_unique_from, not_elem_of_cons. naive_solver.
Qed.

Lemma NoDup_unique (l : list A) : NoDup (unique l).
Proof. apply NoDup_unique_from. Qed.
End uniques.

(** ** The region normaliser *)

Section normaliser.
Import PyStr Region.

Implicit Types (region_names : list string) (s c k v : string).

(** The keys of the canonical dict are lower-cased stripped names of the
    reference data, each with such a name as value. *)
Lemma elem_of_canonical_regions region_names k v :
  (k, v) ∈ canonical_regions region_names →
  v ∈ map strip region_names ∧ k = lower v.
Proof.
  unfold canonical_regions, PyDict.of_items.
  intros [Hin | Hin]%elem_of_update; [by apply elem_of_nil in Hin |].
  apply list_elem_of_fmap in Hin as (r & [= -> ->] & Hr).
  rewrite elem_of_unique in Hr. by split.
Qed.

Lemma canonical_regions_key region_names c :
  c ∈ map strip region_names →
  ∃ v, (lower c, v) ∈ canonical_regions region_names.
Proof.
  intros Hc. unfold canonical_regions, PyDict.of_items.
  destruct (get_update_elem_of PyDict.empty
              (map (fun region => (lower region, region)) (unique (map strip region_names)))
              (lower c)) as (v & Hg & _).
  - rewrite <- list_fmap_compose. apply list_elem_of_fmap.
    exists c. split; [done |]. by rewrite elem_of_unique.
  - exists v. by apply get_Some_elem_of.
Qed.

Lemma lowered_aliases_get k v :
  (k, v) ∈ region_aliases_items → PyDict.get lowered_aliases k = Some v.
Proof.
  unfold region_aliases_items. intros Hin.
  repeat (apply elem_of_cons in Hin as [[= -> ->] | Hin]; [reflexivity |]).
  by apply elem_of_nil in Hin.
Qed.

(** An exact match is returned as it is, without any print. *)
Lemma normalize_exact region_mapping s v :
  s ≠ "" →
  PyDict.get region_mapping (lower (strip s)) = Some v →
  normalize_region_name (PStr s) region_mapping = (PStr v, []).
Proof.
  intros Hs Hg. unfold normalize_region_name.
  rewrite truthy_nonempty by done. simpl. by rewrite Hg.
Qed.

(** What the mapping holds under a key: the canonical name of that key
    when there is one, the alias otherwise. *)
Lemma region_mapping_get region_names k :
  (∃ v, PyDict.get (region_mapping region_names) k = Some v ∧
        v ∈ map strip region_names ∧ k = lower v) ∨
  (PyDict.get (region_mapping region_names) k = PyDict.get lowered_aliases k ∧
   ∀ c, c ∈ map strip region_names → lower c ≠ k).
Proof.
  unfold region_mapping.
  destruct (decide (k ∈ (PyDict.items (canonical_regions region_names)).*1)) as [Hk | Hk].
  - left. destruct (get_update_elem_of lowered_aliases _ _ Hk) as (v & Hg & Hv).
    exists v. split; [done |]. by apply elem_of_canonical_regions.
  - right. split; [by apply get_update_not_elem_of |].
    intros c Hc <-. apply Hk.
    destruct (canonical_regions_key _ _ Hc) as (v & Hv).
    apply list_elem_of_fmap. by exists (lower c, v).
Qed.

Lemma region_mapping_not_nil region_names :
  ∃ v d, region_mapping region_names = ("europe central", v) :: d.
Proof. unfold region_mapping. apply (update_head "europe central" "Europe Central"). Qed.
End normaliser.

Section normaliser_claims.
Import PyStr Region.

Implicit Types (region_names : list string) (s c k v : string).

(** Null, NaN and the empty string give no region. *)
Lemma normalize_null region_mapping :
  normalize_region_name PNone region_mapping = (PNone, []) ∧
  normalize_region_name PNaN region_mapping = (PNone, []) ∧
  normalize_region_name (PStr "") region_mapping = (PNone, []).
Proof. done. Qed.

(** A text that is not empty but strips to nothing passes the test
    [not region_name], and the partial-match loop then accepts the first
    item of the mapping, the empty string being contained in every key:
    the result is a region, never null. *)
Lemma normalize_blank_not_null region_names s :
  s ≠ "" → strip s = "" →
  ∃ v, normalize_region_name (PStr s) (region_mapping region_names) = (PStr v, []).
Proof.
  intros Hs Hstrip. unfold normalize_region_name.
  rewrite truthy_nonempty by done. simpl. rewrite Hstrip. simpl.
  destruct (PyDict.get _ _) as [v|]; [by exists v |].
  destruct (region_mapping_not_nil region_names) as (v & d & ->).
  by exists v.
Qed.

(** C5 (the code departs from it): the region normaliser returns null for
    every input whose stripped, lower-cased form is empty. On the input of
    three blanks, with the reference data of [generate_data.py], it
    returns the region "Europe Central". *)
Theorem C5_blank_region_is_normalized_to_a_region :
  normalize_region_name (PStr "   ") (region_mapping sample_region_names)
  = (PStr "Europe Central", []).
Proof. reflexivity. Qed.

(** A region name of the reference data, in any case and with any
    surrounding whitespace, is normalised to a reference name of the same
    lower-cased form; the empty name is no region (it is tested first). *)
Lemma normalize_canonical region_names c s :
  c ∈ map strip region_names →
  c ≠ "" →
  lower (strip s) = lower c →
  ∃ c', normalize_region_name (PStr s) (region_mapping region_names) = (PStr c', []) ∧
        c' ∈ map strip region_names ∧ lower c' = lower c.
Proof.
  intros Hc Hne Hs.
  assert (s ≠ "") as Hs0.
  { intros ->. apply Hne. by apply lower_empty. }
  destruct (region_mapping_get region_names (lower c))
    as [(v & Hg & Hv & Hk) | [_ Hno]]; [| by destruct (Hno c Hc)].
  exists v. split; [| done]. apply normalize_exact; [done |]. by rewrite Hs.
Qed.

(** C6: a region name of the reference data, written in any case and with
    any surrounding whitespace, is normalised to that name: the mapping
    holds it under its lower-cased form, over any alias of the same key.
    The empty name is no region (it is tested first), and the name is the
    one of its lower-cased form among the reference names. *)
Theorem C6_canonical_region_is_identity_modulo_case region_names c s :
  c ∈ map strip region_names →
  c ≠ "" →
  lower (strip s) = lower c →
  (∀ c', c' ∈ map strip region_names → lower c' = lower c → c' = c) →
  normalize_region_name (PStr s) (region_mapping region_names) = (PStr c, []).
Proof.
  intros Hc Hne Hs Huniq.
  destruct (normalize_canonical region_names c s) as (c' & -> & Hc' & Hl); try done.
  by rewrite (Huniq c' Hc' Hl).
Qed.

Lemma C6_witness :
  normalize_region_name (PStr "  EUROPE west ") (region_mapping sample_region_names)
  = (PStr "Europe West", []).
Proof.
  apply (C6_canonical_region_is_identity_modulo_case sample_region_names "Europe West").
  - vm_compute. set_solver.
  - done.
  - reflexivity.
  - intros c' Hin. vm_compute in Hin.
    repeat (apply elem_of_cons in Hin as [-> | Hin]; [by vm_compute |]).
    by apply elem_of_nil in Hin.
Defined.

(** An alias whose key no reference name takes, or takes with the same
    value, reads as its target. *)
Lemma region_mapping_alias region_names k v :
  (k, v) ∈ region_aliases_items →
  (∀ c, c ∈ map strip region_names → lower c = k → c = v) →
  PyDict.get (region_mapping region_names) k = Some v.
Proof.
  intros Hkv Hshadow.
  destruct (region_mapping_get region_names k) as [(c & Hg & Hc & Hk) | [Hg _]].
  - rewrite Hg. f_equal. symmetry in Hk. auto.
  - rewrite Hg. by apply lowered_aliases_get.
Qed.

Lemma alias_target_is_alias k v :
  (k, v) ∈ region_aliases_items →
  k ≠ "" ∧ v ≠ "" ∧ strip v = v ∧ (lower v, v) ∈ region_aliases_items.
Proof.
  unfold region_aliases_items. intros Hin.
  repeat (apply elem_of_cons in Hin as [[= -> ->] | Hin];
          [repeat split; [done | done | vm_compute; set_solver] |]).
  by apply elem_of_nil in Hin.
Qed.

(** C7: an alias of the fixed table, in any case, is normalised to its
    target, and the target is normalised to itself, when no reference
    name lies on the key of the alias or of the target with another
    value. *)
Theorem C7_alias_roundtrip region_names k v s :
  (k, v) ∈ region_aliases_items →
  lower (strip s) = k →
  (∀ c, c ∈ map strip region_names → lower c = k ∨ lower c = lower v → c = v) →
  normalize_region_name (PStr s) (region_mapping region_names) = (PStr v, []) ∧
  normalize_region_name (PStr v) (region_mapping region_names) = (PStr v, []).
Proof.
  intros Hkv Hs Hshadow.
  destruct (alias_target_is_alias _ _ Hkv) as (Hk & Hv & Hstrip & Hvv).
  split.
  - apply normalize_exact.
    + intros ->. by apply Hk.
    + rewrite Hs. apply region_mapping_alias; [done |]. intros c Hc Hl. apply Hshadow; auto.
  - apply normalize_exact; [done |]. rewrite Hstrip.
    apply region_mapping_alias; [done |]. intros c Hc Hl. apply Hshadow; auto.
Qed.

Lemma C7_witness :
  normalize_region_name (PStr " EMEA") (region_mapping sample_region_names)
  = (PStr "Europe Middle East Africa", []) ∧
  normalize_region_name (PStr "Europe Middle East Africa")
                        (region_mapping sample_region_names)
  = (PStr "Europe Middle East Africa", []).
Proof.
  apply (C7_alias_roundtrip sample_region_names "emea").
  - vm_compute. set_solver.
  - reflexivity.
  - intros c Hin. vm_compute in Hin.
    repeat (apply elem_of_cons in Hin as [-> | Hin];
            [vm_compute; intros [?|?]; discriminate |]).
    by apply elem_of_nil in Hin.
Defined.
Example canonical_name_takes_the_key_of_an_alias :
  (* a reference name written "EMEA" lies on the key of the alias "emea" *)
  normalize_region_name (PStr "emea") (region_mapping ["EMEA"]) = (PStr "EMEA", []) ∧
  normalize_region_name (PStr "emea") (region_mapping []) =
    (PStr "Europe Middle East Africa", []).
Proof. split; reflexivity. Qed.

Example degenerate_reference_names :
  (* reference names that differ by case only share a key, which the
     last one takes; a reference name that is empty is never returned *)
  normalize_region_name (PStr "Asia") (region_mapping ["Asia"; "ASIA"]) = (PStr "ASIA", []) ∧
  normalize_region_name (PStr "") (region_mapping [" "]) = (PNone, []).
Proof. split; reflexivity. Qed.

Example specification_scenarios :
  normalize_region_name (PStr "East") (region_mapping sample_region_names)
    = (PStr "Europe East", []) ∧
  normalize_region_name (PStr "Mars") (region_mapping sample_region_names)
    = (PStr "Mars", [MsgNoRegionMatch "Mars"]).
Proof. split; reflexivity. Qed.
End normaliser_claims.

(** ** The cached dimension *)

Section dim_facts.
Context {K : Type} `{Countable K} {A : Type}.
Variable natkey : A → K.

Implicit Types (d : Dim.t K A) (a : A) (k : K) (table : list (Dim.row A)).

Abbreviation select := (Dim.select natkey).
Abbreviation lookup := (Dim.lookup natkey).
Abbreviation insert := (Dim.insert natkey).
Abbreviation load_row := (Dim.load_row natkey).
Abbreviation load := (Dim.load natkey).
Abbreviation wf := (Dim.wf natkey).
Abbreviation natkeys table := (map (fun r => natkey (Dim.data r)) table).

Lemma select_app table r k :
  select (table ++ [r]) k =
  match select table k with
  | Some keyval => Some keyval
  | None => if decide (natkey (Dim.data r) = k) then Some (Dim.key r) else None
  end.
Proof.
  unfold Dim.select. induction table as [|r0 table IH]; simpl.
  - case_bool_decide; by case_decide.
  - by case_bool_decide.
Qed.

Lemma select_Some table k keyval :
  select table k = Some keyval →
  ∃ r, r ∈ table ∧ Dim.key r = keyval ∧ natkey (Dim.data r) = k.
Proof.
  unfold Dim.select. induction table as [|r0 table IH]; simpl; [done |].
  case_bool_decide as Hk; simpl.
  - intros [= <-]. exists r0. split; [apply list_elem_of_here | done].
  - intros Hs. destruct (IH Hs) as (r & Hr & ?). exists r.
    split; [by apply list_elem_of_further | done].
Qed.

Lemma select_None table k : select table k = None ↔ k ∉ natkeys table.
Proof.
  unfold Dim.select. induction table as [|r0 table IH]; simpl.
  - split; [intros _; apply not_elem_of_nil | done].
  - rewrite not_elem_of_cons. case_bool_decide as Hk; simpl; [naive_solver |].
    rewrite IH. naive_solver.
Qed.

Lemma select_is_Some table k : is_Some (select table k) ↔ k ∈ natkeys table.
Proof.
  rewrite <- not_eq_None_Some, select_None.
  destruct (decide (k ∈ natkeys table)); naive_solver.
Qed.

(** A lookup leaves the table and the key counter alone and answers what
    the table holds, when the cache agrees with the table. *)
Lemma lookup_rows d k : Dim.rows (lookup d k).2 = Dim.rows d.
Proof. unfold Dim.lookup. by destruct (Dim.cache d !! k). Qed.

Lemma lookup_maxid d k : Dim.maxid (lookup d k).2 = Dim.maxid d.
Proof. unfold Dim.lookup. by destruct (Dim.cache d !! k). Qed.

Lemma lookup_answer d k : wf d → (lookup d k).1 = select (Dim.rows d) k.
Proof.
  intros Hwf. unfold Dim.lookup.
  destruct (Dim.cache d !! k) as [keyval|] eqn:Hc; [| done].
  simpl. symmetry. by apply (Dim.wf_cache _ _ Hwf k).
Qed.

(** After a lookup the answer is in the cache. *)
Lemma lookup_cached d k : Dim.cache (lookup d k).2 !! k = Some (lookup d k).1.
Proof.
  unfold Dim.lookup. destruct (Dim.cache d !! k) as [keyval|] eqn:Hc; [done |].
  simpl. apply lookup_insert_eq.
Qed.

(** A lookup never changes an entry of the cache. *)
Lemma lookup_cache_mono d k k' keyval :
  Dim.cache d !! k' = Some keyval → Dim.cache (lookup d k).2 !! k' = Some keyval.
Proof.
  intros Hc. unfold Dim.lookup. destruct (Dim.cache d !! k) as [kv|] eqn:Hk; [done |].
  simpl. rewrite lookup_insert_ne; [done | congruence].
Qed.

Lemma lookup_cached_id d k :
  Dim.cached d k = true → (lookup d k).2 = d.
Proof.
  unfold Dim.cached, Dim.lookup. case_bool_decide as Hc; [| done].
  intros _. by destruct Hc as [kv ->].
Qed.

Lemma lookup_wf d k : wf d → wf (lookup d k).2.
Proof.
  intros [Hm Hk Hn Hc]. unfold Dim.lookup.
  destruct (Dim.cache d !! k) as [keyval|] eqn:Hck; [done |].
  constructor; simpl; [done | done | done |].
  by apply map_Forall_insert_2.
Qed.

Lemma insert_wf d a :
  wf d → select (Dim.rows d) (natkey a) = None → wf (insert d a).2.
Proof.
  intros [Hm Hk Hn Hc] Hnew. constructor; simpl.
  - lia.
  - apply Forall_app. split.
    + eapply Forall_impl; [exact Hk |]. simpl. intros r. lia.
    + constructor; [simpl; lia | constructor].
  - rewrite map_app. simpl. apply NoDup_app. repeat split.
    + done.
    + intros k Hin ->%list_elem_of_singleton. by apply select_None in Hnew.
    + apply NoDup_singleton.
  - intros k keyval. rewrite lookup_insert. case_decide as Hk'.
    + intros [= <-]. subst k. rewrite select_app, Hnew. simpl. by case_decide.
    + intros Hck. rewrite select_app, (Hc k keyval Hck).
      destruct keyval as [kv|]; [done |]. by case_decide.
Qed.

(** Surrogate keys are positive, so both tests of the loaders see a miss
    exactly when the table has no row. *)
Lemma is_miss_select test d k :
  wf d → Dim.is_miss test (select (Dim.rows d) k) = true ↔ select (Dim.rows d) k = None.
Proof.
  intros Hwf. destruct (select (Dim.rows d) k) as [keyval|] eqn:Hs.
  - apply select_Some in Hs as (r & Hr & <- & _).
    pose proof (Dim.wf_keys _ _ Hwf) as Hk. rewrite Forall_forall in Hk.
    specialize (Hk r Hr). destruct test; simpl; [| done].
    case_bool_decide; [lia | done].
  - by destruct test.
Qed.

(** One turn of a loading loop: nothing is written for a key the table
    has, one row under the next surrogate key for a key it has not. *)
Lemma load_row_rows test d a :
  wf d →
  Dim.rows (load_row test d a) =
  match select (Dim.rows d) (natkey a) with
  | Some _ => Dim.rows d
  | None => Dim.rows d ++ [Dim.Row (Dim.maxid d + 1) a]
  end.
Proof.
  intros Hwf. unfold Dim.load_row.
  pose proof (lookup_answer d (natkey a) Hwf) as Ha.
  pose proof (lookup_rows d (natkey a)) as Hr.
  pose proof (lookup_maxid d (natkey a)) as Hm.
  pose proof (is_miss_select test d (natkey a) Hwf) as Hmiss.
  destruct (lookup d (natkey a)) as [keyval d1]. simpl in *. subst keyval.
  destruct (select (Dim.rows d) (natkey a)) as [kv|] eqn:Hs.
  - destruct (Dim.is_miss test (Some kv)); [| done].
    pose proof (proj1 Hmiss eq_refl). discriminate.
  - rewrite (proj2 Hmiss eq_refl). simpl. by rewrite Hr, Hm.
Qed.

Lemma load_row_wf test d a : wf d → wf (load_row test d a).
Proof.
  intros Hwf. unfold Dim.load_row.
  pose proof (lookup_answer d (natkey a) Hwf) as Ha.
  pose proof (lookup_rows d (natkey a)) as Hr.
  pose proof (lookup_wf d (natkey a) Hwf) as Hwf1.
  pose proof (is_miss_select test d (natkey a) Hwf) as Hmiss.
  destruct (lookup d (natkey a)) as [keyval d1]. simpl in *. subst keyval.
  destruct (Dim.is_miss test _); [| done].
  apply insert_wf; [done |]. rewrite Hr. by apply Hmiss.
Qed.

(** After its turn a row is in the table. *)
Lemma load_row_present test d a :
  wf d → is_Some (select (Dim.rows (load_row test d a)) (natkey a)).
Proof.
  intros Hwf. rewrite load_row_rows by done.
  destruct (select (Dim.rows d) (natkey a)) as [kv|] eqn:Hs; [by rewrite Hs |].
  rewrite select_app, Hs. simpl. by case_decide.
Qed.

(** A key that is in the table stays there, with its surrogate key. *)
Lemma load_row_keeps test d a k keyval :
  wf d → select (Dim.rows d) k = Some keyval →
  select (Dim.rows (load_row test d a)) k = Some keyval.
Proof.
  intros Hwf Hs. rewrite load_row_rows by done.
  destruct (select (Dim.rows d) (natkey a)); [done |].
  by rewrite select_app, Hs.
Qed.

Lemma load_wf test d l : wf d → wf (load test d l).
Proof.
  revert d. induction l as [|a l IH]; intros d Hwf; simpl; [done |].
  apply IH. by apply load_row_wf.
Qed.

Lemma load_keeps test d l k keyval :
  wf d → select (Dim.rows d) k = Some keyval →
  select (Dim.rows (load test d l)) k = Some keyval.
Proof.
  revert d. induction l as [|a l IH]; intros d Hwf Hs; simpl; [done |].
  apply IH; [by apply load_row_wf | by apply load_row_keeps].
Qed.

Lemma load_present test d l a :
  wf d → a ∈ l → is_Some (select (Dim.rows (load test d l)) (natkey a)).
Proof.
  revert d. induction l as [|a0 l IH]; intros d Hwf Hin; [by apply elem_of_nil in Hin |].
  simpl. apply elem_of_cons in Hin as [-> | Hin].
  - destruct (load_row_present test d a0 Hwf) as [kv Hkv].
    exists kv. apply load_keeps; [by apply load_row_wf | done].
  - apply IH; [by apply load_row_wf | done].
Qed.

(** Loading rows that are all in the table writes nothing. *)
Lemma load_all_present test d l :
  wf d → (∀ a, a ∈ l → is_Some (select (Dim.rows d) (natkey a))) →
  Dim.rows (load test d l) = Dim.rows d.
Proof.
  revert d. induction l as [|a l IH]; intros d Hwf Hall; simpl; [done |].
  assert (Dim.rows (load_row test d a) = Dim.rows d) as Hr.
  { rewrite load_row_rows by done.
    destruct (Hall a) as [kv ->]; [apply list_elem_of_here | done]. }
  rewrite IH; [done | by apply load_row_wf |].
  intros a' Hin. rewrite Hr. apply Hall. by apply list_elem_of_further.
Qed.

Lemma max_key_bound table r : r ∈ table → Dim.key r ≤ Dim.max_key table.
Proof.
  destruct table as [|r0 table]; [by intros ?%elem_of_nil |]. simpl.
  assert (∀ (l : list (Dim.row A)) m r, (r ∈ l ∨ Dim.key r ≤ m) →
            Dim.key r ≤ fold_left (fun m r' => Z.max m (Dim.key r')) l m) as Hfold.
  { clear. induction l as [|r1 l IH]; intros m r; simpl.
    - intros [?%elem_of_nil | ?]; [done | lia].
    - intros [[-> | Hin]%elem_of_cons | Hle]; apply IH; [right | by left | right]; lia. }
  intros [-> | Hin]%elem_of_cons; apply Hfold; [right; lia | by left].
Qed.

(** A persisted table with positive keys and one row per natural key,
    opened with a cold cache, is in a well-formed state. *)
Lemma connect_wf table :
  Forall (fun r => 0 < Dim.key r) table →
  NoDup (natkeys table) →
  wf (Dim.connect table).
Proof.
  intros Hk Hn. constructor; simpl.
  - destruct table as [|r0 table]; [simpl; lia |].
    apply Forall_cons in Hk as [Hk0 _].
    pose proof (max_key_bound (r0 :: table) r0 (list_elem_of_here _ _)). lia.
  - rewrite Forall_forall in Hk. apply Forall_forall. intros r Hr.
    split; [by apply Hk | by apply max_key_bound].
  - done.
  - apply map_Forall_empty.
Qed.

Lemma rows_of_length d k :
  NoDup (natkeys (Dim.rows d)) →
  is_Some (select (Dim.rows d) k) →
  length (Dim.rows_of natkey d k) = 1%nat.
Proof.
  unfold Dim.rows_of. intros Hn Hs. apply select_is_Some in Hs.
  induction (Dim.rows d) as [|r table IH]; [by apply elem_of_nil in Hs |].
  simpl in *. apply NoDup_cons in Hn as [Hr Hn].
  rewrite filter_cons. case_decide as Hk; simpl.
  - f_equal. subst k. clear IH Hs.
    induction table as [|r' table IH]; [done |].
    simpl in *. rewrite not_elem_of_cons in Hr. destruct Hr as [Hne Hr].
    apply NoDup_cons in Hn as [_ Hn].
    rewrite filter_cons. case_decide; [congruence | auto].
  - apply elem_of_cons in Hs as [-> | Hs]; [done | auto].
Qed.
End dim_facts.

Section dim_claims.
Context {K : Type} `{Countable K} {A : Type}.
Variable natkey : A → K.

(** C1: for a dimension in a well-formed state (positive surrogate keys,
    one row per natural key, a cache that agrees with the table: the
    states [lookup] and [insert] lead to) and two source rows of the same
    natural key [k], running the load step (lookup, insert on a miss) on
    the one and then on the other resolves [k] to the same surrogate key
    after each step, writes at most one row and leaves exactly one row
    for [k] in the table, the second step writing nothing; loading a
    whole frame again, in the same state or from a fresh connection on
    the persisted table, adds no row either. *)
Theorem C1_dimension_load_is_idempotent
    (test : Dim.miss_test) (d : Dim.t K A) (a a' : A) (l : list A) :
  Dim.wf natkey d →
  natkey a' = natkey a →
  (let k := natkey a in
   let d1 := Dim.load_row natkey test d a in
   let d2 := Dim.load_row natkey test d1 a' in
   ∃ keyval,
     (Dim.lookup natkey d1 k).1 = Some keyval ∧
     (Dim.lookup natkey d2 k).1 = Some keyval ∧
     (Dim.rows d1 = Dim.rows d ∨ Dim.rows d1 = Dim.rows d ++ [Dim.Row keyval a]) ∧
     Dim.rows d2 = Dim.rows d1 ∧
     length (Dim.rows_of natkey d1 k) = 1%nat ∧
     length (Dim.rows_of natkey d2 k) = 1%nat) ∧
  (let d1 := Dim.load natkey test d l in
   Dim.rows (Dim.load natkey test d1 l) = Dim.rows d1 ∧
   Dim.rows (Dim.load natkey test (Dim.connect (Dim.rows d1)) l) = Dim.rows d1).
Proof.
  intros Hwf Hsame. split.
  - intros k d1 d2.
    assert (Dim.wf natkey d1) as Hwf1 by by apply load_row_wf.
    assert (Dim.wf natkey d2) as Hwf2 by by apply load_row_wf.
    destruct (load_row_present natkey test d a Hwf) as [keyval Hs]. fold d1 k in Hs.
    assert (Dim.rows d2 = Dim.rows d1) as Hrows.
    { unfold d2. rewrite load_row_rows by done. rewrite Hsame. fold k. by rewrite Hs. }
    exists keyval. rewrite !lookup_answer by done. rewrite Hrows.
    split; [done |]. split; [done |]. split; [| split; [done | split]].
    + unfold d1 in *. rewrite load_row_rows in * by done. fold k in Hs |- *.
      destruct (Dim.select natkey (Dim.rows d) k) as [kv|] eqn:Hsel; [by left | right].
      rewrite select_app, Hsel in Hs. simpl in Hs.
      rewrite decide_True in Hs by done. by injection Hs as <-.
    + apply rows_of_length; [by destruct Hwf1 | by rewrite Hs].
    + apply rows_of_length; [by destruct Hwf2 | by rewrite Hrows, Hs].
  - intros d1.
    assert (Dim.wf natkey d1) as Hwf1 by by apply load_wf.
    split.
    + apply load_all_present; [done |]. intros a0 Hin. by apply load_present.
    + rewrite load_all_present; [done | |].
      * destruct Hwf1 as [_ Hk Hn _]. apply connect_wf; [| done].
        eapply Forall_impl; [exact Hk |]. simpl. intros r. lia.
      * intros a0 Hin. simpl. by apply load_present.
Qed.
End dim_claims.

Lemma C1_witness :
  let natkey := Etl.region_natkey in
  let a := RegionRow.Make "North America" "USA" "North America" in
  let a' := RegionRow.Make "North America" "Canada" "North America" in
  let d := Dim.connect [] in
  (let k := Some "North America" in
   let d1 := Dim.load_row natkey Dim.IsNone d a in
   let d2 := Dim.load_row natkey Dim.IsNone d1 a' in
   ∃ keyval,
     (Dim.lookup natkey d1 k).1 = Some keyval ∧
     (Dim.lookup natkey d2 k).1 = Some keyval ∧
     (Dim.rows d1 = Dim.rows d ∨ Dim.rows d1 = Dim.rows d ++ [Dim.Row keyval a]) ∧
     Dim.rows d2 = Dim.rows d1 ∧
     length (Dim.rows_of natkey d1 k) = 1%nat ∧
     length (Dim.rows_of natkey d2 k) = 1%nat) ∧
  (let d1 := Dim.load natkey Dim.IsNone d Sample.regions in
   Dim.rows (Dim.load natkey Dim.IsNone d1 Sample.regions) = Dim.rows d1 ∧
   Dim.rows (Dim.load natkey Dim.IsNone (Dim.connect (Dim.rows d1)) Sample.regions)
   = Dim.rows d1).
Proof.
  intros natkey a a' d.
  apply (C1_dimension_load_is_idempotent natkey Dim.IsNone d a a' Sample.regions).
  - constructor; simpl.
    + lia.
    + constructor.
    + constructor.
    + apply map_Forall_empty.
  - reflexivity.
Defined.

Example sample_product_keys :
  let d := Dim.load (@Product.product_id Sample.num) Dim.NotTruthy (Dim.connect [])
                    Sample.products in
  map Dim.key (Dim.rows d) = [1; 2; 3] ∧
  (Dim.lookup Product.product_id d "P2").1 = Some 2 ∧
  (Dim.lookup Product.product_id d "P9").1 = None.
Proof. vm_compute. done. Qed.

(** What the loading loops leave in the cache. No assumption on the state
    of the dimension is needed here. *)
Section dim_cache_facts.
Context {K : Type} `{Countable K} {A : Type}.
Variable natkey : A → K.

Implicit Types (d : Dim.t K A) (a : A) (k : K).

Lemma load_row_resolved test d a :
  Dim.resolved_in_cache (Dim.load_row natkey test d a) (natkey a).
Proof.
  unfold Dim.load_row.
  pose proof (lookup_cached natkey d (natkey a)) as Hc.
  destruct (Dim.lookup natkey d (natkey a)) as [keyval d1]. simpl in Hc.
  destruct (Dim.is_miss test keyval) eqn:Hmiss.
  - eexists. simpl. apply lookup_insert_eq.
  - destruct keyval as [keyval|]; [by exists keyval | by destruct test].
Qed.

Lemma load_row_resolved_kept test d a k :
  Dim.resolved_in_cache d k → Dim.resolved_in_cache (Dim.load_row natkey test d a) k.
Proof.
  intros [keyval Hk]. unfold Dim.load_row.
  pose proof (lookup_cache_mono natkey d (natkey a) k _ Hk) as Hc.
  destruct (Dim.lookup natkey d (natkey a)) as [kv d1]. simpl in Hc.
  destruct (Dim.is_miss test kv); [| by exists keyval].
  unfold Dim.resolved_in_cache. simpl. rewrite lookup_insert.
  case_decide; eauto.
Qed.

Lemma load_resolved_kept test d l k :
  Dim.resolved_in_cache d k → Dim.resolved_in_cache (Dim.load natkey test d l) k.
Proof.
  revert d. induction l as [|a l IH]; intros d Hk; simpl; [done |].
  by apply IH, load_row_resolved_kept.
Qed.

Lemma load_resolved test d l a :
  a ∈ l → Dim.resolved_in_cache (Dim.load natkey test d l) (natkey a).
Proof.
  revert d. induction l as [|a0 l IH]; intros d Hin; [by apply elem_of_nil in Hin |].
  simpl. apply elem_of_cons in Hin as [-> | Hin]; [| by apply IH].
  apply load_resolved_kept, load_row_resolved.
Qed.
End dim_cache_facts.

Example not_truthy_takes_key_zero_for_a_miss :
  (* outside the well-formed states: a persisted row of surrogate key 0 is
     not seen by [if not dim.lookup(...)] *)
  let a := Customer.Make "C1" "Customer 1" "Consumer" "USA" "Chicago" in
  let d := Dim.connect [Dim.Row 0 a] in
  length (Dim.rows (Dim.load_row Customer.customer_id Dim.NotTruthy d a)) = 2%nat ∧
  length (Dim.rows (Dim.load_row Customer.customer_id Dim.IsNone d a)) = 1%nat.
Proof. vm_compute. done. Qed.

(** ** The fact loop *)

Section loop_facts.
Context {F : Type} `{Pandas F}.
Variable db_fails : nat → bool.
Variable region_mapping : PyDict.t string.
Variable valid_products : gset string.

Import Etl.

Implicit Types (w : World F) (row : Sale.t F).

Abbreviation M := (M (F:=F)).
Abbreviation execute := (execute db_fails).
Abbreviation lookup_in := (lookup_in db_fails).
Abbreviation lookup_region := (lookup_region db_fails).
Abbreviation normalize := (normalize region_mapping).
Abbreviation resolve_keys := (resolve_keys db_fails).
Abbreviation insert_fact := (insert_fact db_fails).
Abbreviation fact_body := (fact_body db_fails region_mapping valid_products).
Abbreviation process_row := (process_row db_fails region_mapping valid_products).
Abbreviation load_facts := (load_facts db_fails region_mapping valid_products).
Abbreviation outcomes := (outcomes db_fails region_mapping valid_products).
Abbreviation same_counts := (same_counts (F:=F)).
Abbreviation same_stdout := (same_stdout (F:=F)).
Abbreviation dates_kept := (dates_kept (F:=F)).

Lemma preserves_ret R `{!Reflexive R} {A} (a : A) : preserves R (mret a : M A).
Proof. intros w r w' [= _ <-]. reflexivity. Qed.

Lemma preserves_bind R `{!Transitive R} {A B} (m : M A) (k : A → M B) :
  preserves R m → (∀ a, preserves R (k a)) → preserves R (m ≫= k).
Proof.
  intros Hm Hk w r w'. unfold mbind, M_bind, bind.
  destruct (m w) as [[a|e] w1] eqn:Hmw.
  - intros Hkw. etransitivity; [by eapply Hm | by eapply Hk].
  - intros [= _ <-]. by eapply Hm.
Qed.

Lemma preserves_modify R (f : World F → World F) :
  (∀ w, R w (f w)) → preserves R (modify f).
Proof. intros Hf w r w' [= _ <-]. apply Hf. Qed.

Lemma preserves_execute R :
  (∀ w, R w (set_statements (S (statements w)) w)) → preserves R execute.
Proof.
  intros Hs w r w'. unfold Etl.execute.
  destruct (db_fails _); intros [= _ <-]; apply Hs.
Qed.

Lemma preserves_lookup_in R `{!PreOrder R} {K A} `{Countable K}
    (natkey : A → K) get put k :
  (∀ w, R w (set_statements (S (statements w)) w)) →
  (∀ w, R w (put (Dim.lookup natkey (get w) k).2 w)) →
  preserves R (lookup_in natkey get put k).
Proof.
  intros Hs Hput.
  assert (preserves R (fun w : World F =>
            let (keyval, d) := Dim.lookup natkey (get w) k in
            (Return keyval, put d w))) as Hanswer.
  { intros w r w'. specialize (Hput w).
    destruct (Dim.lookup natkey (get w) k). by intros [= _ <-]. }
  intros w r w'. unfold Etl.lookup_in.
  destruct (Dim.cached (get w) k).
  - apply Hanswer.
  - apply (preserves_bind R).
    + by apply preserves_execute.
    + intros _. apply Hanswer.
Qed.

#[local] Instance same_counts_preorder : PreOrder same_counts.
Proof.
  split.
  - by intros w.
  - intros w1 w2 w3 (? & ? & ?) (? & ? & ?). repeat split; congruence.
Qed.

#[local] Instance same_stdout_preorder : PreOrder same_stdout.
Proof. split; [by intros w | intros w1 w2 w3 ? ?; unfold same_stdout in *; congruence]. Qed.

#[local] Instance dates_kept_preorder : PreOrder dates_kept.
Proof.
  split.
  - intros w k keyval Hc. exact Hc.
  - intros w1 w2 w3 H12 H23 k keyval Hc. apply H23, H12, Hc.
Qed.

Lemma preserves_lookup_region R `{!PreOrder R} region :
  (∀ w, R w (set_statements (S (statements w)) w)) →
  (∀ w k, R w (set_dim_region (Dim.lookup region_natkey (dim_region w) k).2 w)) →
  preserves R (lookup_region region).
Proof. intros Hs Hput. by apply (preserves_lookup_in R). Qed.

Lemma preserves_resolve_keys R `{!PreOrder R} row region :
  (∀ w, R w (set_statements (S (statements w)) w)) →
  (∀ w k, R w (set_dim_product (Dim.lookup Product.product_id (dim_product w) k).2 w)) →
  (∀ w k, R w (set_dim_date (Dim.lookup DateRow.full_date (dim_date w) k).2 w)) →
  (∀ w k, R w (set_dim_customer (Dim.lookup Customer.customer_id (dim_customer w) k).2 w)) →
  (∀ w k, R w (set_dim_region (Dim.lookup region_natkey (dim_region w) k).2 w)) →
  preserves R (resolve_keys row region).
Proof.
  intros Hs Hp Hd Hc Hr. unfold Etl.resolve_keys.
  apply (preserves_bind R); [by apply (preserves_lookup_in R) | intros pk].
  apply (preserves_bind R); [by apply (preserves_lookup_in R) | intros dk].
  apply (preserves_bind R); [by apply (preserves_lookup_in R) | intros ck].
  apply (preserves_bind R); [by apply (preserves_lookup_region R) | intros rk].
  apply (preserves_ret R).
Qed.

Lemma resolve_keys_same_counts row region : preserves same_counts (resolve_keys row region).
Proof. by apply (preserves_resolve_keys same_counts). Qed.

Lemma resolve_keys_same_stdout row region : preserves same_stdout (resolve_keys row region).
Proof. by apply (preserves_resolve_keys same_stdout). Qed.

Lemma lookup_dates_kept w k :
  dates_kept w (set_dim_date (Dim.lookup DateRow.full_date (dim_date w) k).2 w).
Proof. intros k' keyval Hc. simpl. by apply lookup_cache_mono. Qed.

Lemma resolve_keys_dates_kept row region : preserves dates_kept (resolve_keys row region).
Proof.
  apply (preserves_resolve_keys dates_kept);
    try (intros w k; apply lookup_dates_kept);
    unfold dates_kept; simpl; auto.
Qed.

Lemma normalize_run region w :
  normalize region w =
  (Return (Region.normalize_region_name region region_mapping).1,
   set_stdout (stdout w ++ (Region.normalize_region_name region region_mapping).2) w).
Proof. unfold Etl.normalize. by destruct (Region.normalize_region_name _ _). Qed.

Abbreviation skipped w := (set_skipped_records (S (skipped_records w)) w).

(** The body of the loop, exit by exit. *)
Lemma fact_body_invalid row w :
  Sale.product_id row ∉ valid_products →
  fact_body row w = (Return ExitInvalidProduct, skipped w).
Proof.
  intros Hp. unfold Etl.fact_body. by rewrite bool_decide_eq_false_2.
Qed.

Lemma fact_body_valid row w :
  Sale.product_id row ∈ valid_products →
  fact_body row w =
  let region := (Region.normalize_region_name (Sale.region row) region_mapping).1 in
  let w1 := set_stdout
              (stdout w ++ (Region.normalize_region_name (Sale.region row) region_mapping).2) w in
  match resolve_keys row region w1 with
  | (Raise e, w2) => (Raise e, w2)
  | (Return fact_row, w2) =>
      if has_none fact_row then (Return ExitUnresolved, skipped w2)
      else
        match execute w2 with
        | (Raise e, w3) => (Raise e, w3)
        | (Return _, w3) =>
            (Return ExitLoaded,
             set_fact_count (S (fact_count w3))
               (set_fact_sales (fact_sales w3 ++ [with_measures fact_row row]) w3))
        end
  end.
Proof.
  intros Hp. unfold Etl.fact_body. rewrite bool_decide_eq_true_2 by done. simpl.
  unfold mbind at 1, M_bind at 1, bind at 1. rewrite normalize_run.
  unfold mbind at 1, M_bind at 1, bind at 1.
  destruct (resolve_keys row _ _) as [[fact_row|e] w2]; [| done].
  destruct (has_none fact_row); [done |].
  unfold Etl.insert_fact, mbind, M_bind, bind.
  by destruct (execute w2) as [[[]|e] w3].
Qed.

Lemma execute_same_counts : preserves same_counts execute.
Proof. by apply preserves_execute. Qed.

(** What one turn of the loop does to the fact table and the counters:
    it always returns; a loaded row adds one fact, whose four keys were
    resolved, and counts as a fact; any other outcome adds no fact and
    counts as skipped. *)
Lemma process_row_counts row w :
  ∃ o w', process_row row w = (Return o, w') ∧
    match o with
    | Exited ExitLoaded =>
        ∃ fact_row, has_none fact_row = false ∧
          fact_sales w' = fact_sales w ++ [with_measures fact_row row] ∧
          fact_count w' = S (fact_count w) ∧
          skipped_records w' = skipped_records w
    | _ =>
        fact_sales w' = fact_sales w ∧
        fact_count w' = fact_count w ∧
        skipped_records w' = S (skipped_records w)
    end.
Proof.
  unfold Etl.process_row, try_except, mbind, M_bind, bind.
  destruct (decide (Sale.product_id row ∈ valid_products)) as [Hp | Hp].
  - rewrite fact_body_valid by done. simpl.
    destruct (resolve_keys row _ _) as [[fact_row|e] w2] eqn:Hres;
      apply resolve_keys_same_counts in Hres as (Hfs & Hfc & Hsk); simpl in *.
    + destruct (has_none fact_row) eqn:Hnone.
      * eexists _, _. split; [done |]. simpl. by rewrite Hfs, Hfc, Hsk.
      * destruct (execute w2) as [[[]|e] w3] eqn:Hex;
          apply execute_same_counts in Hex as (Hfs3 & Hfc3 & Hsk3).
        -- eexists _, _. split; [done |]. exists fact_row. simpl.
           rewrite Hfs3, Hfc3, Hsk3, Hfs, Hfc, Hsk. done.
        -- eexists _, _. split; [done |]. simpl.
           rewrite Hfs3, Hfc3, Hsk3, Hfs, Hfc, Hsk. done.
    + eexists _, _. split; [done |]. simpl. by rewrite Hfs, Hfc, Hsk.
  - rewrite fact_body_invalid by done. by eexists _, _.
Qed.

Lemma has_none_false fact_row :
  has_none fact_row = false →
  ∃ pk dk ck rk, fact_row = MkKeyRefs (Some pk) (Some dk) (Some ck) (Some rk).
Proof.
  destruct fact_row as [pk dk ck rk]. unfold has_none. simpl.
  intros Hn. apply bool_decide_eq_false in Hn.
  rewrite !not_elem_of_cons in Hn. destruct Hn as (Hp & Hd & Hc & Hr & _).
  destruct pk as [pk|]; [| done]. destruct dk as [dk|]; [| done].
  destruct ck as [ck|]; [| done]. destruct rk as [rk|]; [| done].
  by exists pk, dk, ck, rk.
Qed.

Lemma has_none_true fact_row :
  product_key fact_row = None ∨ date_key fact_row = None ∨
  customer_key fact_row = None ∨ region_key fact_row = None →
  has_none fact_row = true.
Proof.
  destruct fact_row as [pk dk ck rk]. unfold has_none. simpl.
  intros Hn. apply bool_decide_eq_true. set_solver.
Qed.

(** The loop always returns. *)
Lemma load_facts_returns sales_df w :
  ∃ w', load_facts sales_df w = (Return tt, w').
Proof.
  revert w. induction sales_df as [|row rest IH]; intros w; simpl.
  - by eexists.
  - unfold mbind, M_bind, bind.
    destruct (process_row_counts row w) as (o & w1 & -> & _). apply IH.
Qed.

Lemma load_facts_cons row rest w :
  load_facts (row :: rest) w = load_facts rest (process_row row w).2.
Proof.
  simpl. unfold mbind, M_bind, bind.
  by destruct (process_row_counts row w) as (o & w1 & -> & _).
Qed.

Lemma load_facts_app pre post w :
  load_facts (pre ++ post) w = load_facts post (load_facts pre w).2.
Proof.
  revert w. induction pre as [|row pre IH]; intros w; [done |].
  by rewrite <- app_comm_cons, !load_facts_cons, IH.
Qed.

Lemma outcomes_cons row rest w :
  outcomes (row :: rest) w =
  match (process_row row w).1 with
  | Return o => o :: outcomes rest (process_row row w).2
  | Raise _ => []
  end.
Proof. simpl. by destruct (process_row row w) as [[o|e] w1]. Qed.

(** Every outcome is one of the four kinds. *)
Lemma outcome_counts_total (os : list RowOutcome) :
  length os =
  (count_exits ExitLoaded os + (count_exits ExitInvalidProduct os +
     count_exits ExitUnresolved os + count_caught os))%nat.
Proof.
  unfold count_exits, count_caught.
  induction os as [|o os IH]; [done |].
  rewrite !filter_cons.
  destruct o as [[]|e]; repeat case_decide; try done; simpl; lia.
Qed.

(** The counters after the loop, from the outcomes of its rows. *)
Lemma load_facts_counts sales_df w :
  let w' := (load_facts sales_df w).2 in
  let os := outcomes sales_df w in
  length os = length sales_df ∧
  fact_count w' = (fact_count w + count_exits ExitLoaded os)%nat ∧
  skipped_records w' =
    (skipped_records w + (count_exits ExitInvalidProduct os +
       count_exits ExitUnresolved os + count_caught os))%nat ∧
  length (fact_sales w') = (length (fact_sales w) + count_exits ExitLoaded os)%nat.
Proof.
  revert w. induction sales_df as [|row rest IH]; intros w.
  - simpl. unfold count_exits, count_caught. simpl. repeat split; lia.
  - rewrite load_facts_cons, outcomes_cons.
    destruct (process_row_counts row w) as (o & w1 & Hrow & Hcase).
    rewrite Hrow. simpl. specialize (IH w1). simpl in IH.
    destruct IH as (Hlen & Hfc & Hsk & Hfs).
    rewrite Hfc, Hsk, Hfs, Hlen. unfold count_exits, count_caught.
    rewrite !filter_cons.
    destruct o as [[]|e]; repeat case_decide; try done; simpl.
    all: try destruct Hcase as (fact_row & _ & -> & -> & ->).
    all: try destruct Hcase as (-> & -> & ->).
    all: rewrite ?length_app; simpl; repeat split; lia.
Qed.

(** C2: when one of the four resolved keys is null the row is rejected:
    it is counted as skipped and the fact table is left as it was; a turn
    of the loop that changes the fact table appends one row whose four
    keys are all resolved, with the measures of the transaction. *)
Theorem C2_unresolved_reference_is_rejected row w :
  (∀ region w1 fact_row w2,
     Sale.product_id row ∈ valid_products →
     normalize (Sale.region row) w = (Return region, w1) →
     resolve_keys row region w1 = (Return fact_row, w2) →
     product_key fact_row = None ∨ date_key fact_row = None ∨
     customer_key fact_row = None ∨ region_key fact_row = None →
     ∃ w', process_row row w = (Return (Exited ExitUnresolved), w') ∧
           fact_sales w' = fact_sales w ∧
           skipped_records w' = S (skipped_records w) ∧
           fact_count w' = fact_count w) ∧
  (∀ r w', process_row row w = (r, w') →
     fact_sales w' = fact_sales w ∨
     ∃ pk dk ck rk,
       fact_sales w' = fact_sales w ++
         [with_measures (MkKeyRefs (Some pk) (Some dk) (Some ck) (Some rk)) row]).
Proof.
  split.
  - intros region w1 fact_row w2 Hp Hnorm Hres Hnone.
    rewrite normalize_run in Hnorm. injection Hnorm as <- <-.
    unfold Etl.process_row, try_except, mbind, M_bind, bind.
    rewrite fact_body_valid by done. simpl. rewrite Hres.
    rewrite has_none_true by done.
    eexists. split; [done |].
    apply resolve_keys_same_counts in Hres as (Hfs & Hfc & Hsk). simpl in *.
    by rewrite Hfs, Hfc, Hsk.
  - intros r w' Hrow.
    destruct (process_row_counts row w) as (o & w1 & Hrow1 & Hcase).
    rewrite Hrow in Hrow1. injection Hrow1 as -> ->.
    destruct o as [[]|e]; try (left; by destruct Hcase).
    destruct Hcase as (fact_row & Hnone & Hfs & _). right.
    apply has_none_false in Hnone as (pk & dk & ck & rk & ->).
    by exists pk, dk, ck, rk.
Qed.

(** C3: a row whose product is not in [valid_products] is rejected at the
    first test of the body: the state after its turn is the state before
    it with one more skipped record, so no dimension or cache was
    touched, no statement was sent and nothing was printed. *)
Theorem C3_unknown_product_short_circuits row w :
  Sale.product_id row ∉ valid_products →
  process_row row w =
  (Return (Exited ExitInvalidProduct),
   set_skipped_records (S (skipped_records w)) w).
Proof.
  intros Hp. unfold Etl.process_row, try_except, mbind, M_bind, bind.
  by rewrite fact_body_invalid.
Qed.

(** C4: an exception raised by the body of a row is caught at that row,
    which is counted as skipped, with no fact and no count of a fact for
    it; the loop goes on with the next row and always returns, and the
    two counters together grow by the number of rows of the batch. *)
Theorem C4_row_exception_is_caught sales_df w :
  (∀ row w0 e w1,
     fact_body row w0 = (Raise e, w1) →
     process_row row w0 =
       (Return (Caught e), set_skipped_records (S (skipped_records w1)) w1) ∧
     fact_sales w1 = fact_sales w0 ∧ fact_count w1 = fact_count w0 ∧
     skipped_records w1 = skipped_records w0) ∧
  (∀ row rest w0,
     load_facts (row :: rest) w0 = load_facts rest (process_row row w0).2) ∧
  (∃ w', load_facts sales_df w = (Return tt, w') ∧
     length (outcomes sales_df w) = length sales_df ∧
     (fact_count w' + skipped_records w' =
      fact_count w + skipped_records w + length sales_df)%nat).
Proof.
  split; [| split].
  - intros row w0 e w1 Hbody.
    destruct (process_row_counts row w0) as (o & w2 & Hrow & Hcase).
    unfold Etl.process_row, try_except, mbind, M_bind, bind in *.
    rewrite Hbody in *. simpl in *. injection Hrow as <- <-.
    split; [done |]. simpl in Hcase. destruct Hcase as (? & ? & [= ?]). done.
  - apply load_facts_cons.
  - destruct (load_facts_returns sales_df w) as [w' Hw']. exists w'.
    destruct (load_facts_counts sales_df w) as (Hlen & Hfc & Hsk & _).
    rewrite Hw' in Hfc, Hsk. simpl in Hfc, Hsk.
    split; [done |]. split; [done |].
    rewrite Hfc, Hsk, <- Hlen, (outcome_counts_total (outcomes sales_df w)). lia.
Qed.

(** C8 (as the code has it): the report of the fact loop is the count of
    the rows loaded and, when at least one row was skipped, one count of
    all the rows skipped, whatever the reason: unknown product,
    unresolved reference or caught exception. *)
Theorem C8_report_has_one_skip_total sales_df w :
  fact_count w = 0%nat →
  skipped_records w = 0%nat →
  let os := outcomes sales_df w in
  let admitted := count_exits ExitLoaded os in
  let rejected := (count_exits ExitInvalidProduct os +
                   count_exits ExitUnresolved os + count_caught os)%nat in
  stdout ((load_facts sales_df;; print_fact_report) w).2 =
  stdout (load_facts sales_df w).2 ++
    MsgLoadedFacts admitted ::
    (if bool_decide (0 < rejected)%nat then [MsgSkipped rejected] else []).
Proof.
  intros Hfc0 Hsk0 os admitted rejected.
  destruct (load_facts_counts sales_df w) as (_ & Hfc & Hsk & _).
  unfold mbind, M_bind, bind.
  destruct (load_facts_returns sales_df w) as [w1 Hw1].
  rewrite Hw1 in *. simpl in *.
  by rewrite Hfc, Hsk, Hfc0, Hsk0.
Qed.

(** C9 (as the code has it): the discount of a transaction is carried as
    it was read, through the transformation and into the fact row, and
    the total is the rounded product of quantity and unit price, in
    which the discount has no part. *)
Theorem C9_discount_is_carried_as_read (r : RawSale.t F) row w res w' :
  transform_sale r = Some row →
  process_row row w = (res, w') →
  Sale.discount row = RawSale.discount r ∧
  Sale.total_amount row = fround2 (fmul (RawSale.quantity r) (RawSale.unit_price r)) ∧
  (fact_sales w' = fact_sales w ∨
   ∃ fact_row, fact_sales w' = fact_sales w ++ [fact_row] ∧
     FactRow.discount fact_row = RawSale.discount r ∧
     FactRow.total_amount fact_row =
       fround2 (fmul (RawSale.quantity r) (RawSale.unit_price r))).
Proof.
  intros Ht Hrow.
  assert (Sale.discount row = RawSale.discount r ∧
          Sale.total_amount row =
            fround2 (fmul (RawSale.quantity r) (RawSale.unit_price r))) as [Hd Ht'].
  { unfold transform_sale in Ht.
    destruct (to_datetime (RawSale.order_date r)) as [ts|]; [| done].
    by injection Ht as <-. }
  split; [done |]. split; [done |].
  destruct (process_row_counts row w) as (o & w1 & Hrow1 & Hcase).
  rewrite Hrow in Hrow1. injection Hrow1 as -> ->.
  destruct o as [[]|e]; try (left; by destruct Hcase).
  destruct Hcase as (fact_row & _ & Hfs & _). right.
  eexists. split; [exact Hfs |]. by simpl.
Qed.

(** The date cache through the fact loop. *)
Lemma preserves_try_except R {A} (body : M A) handler :
  Transitive R →
  preserves R body → (∀ e, preserves R (handler e)) →
  preserves R (try_except body handler).
Proof.
  intros HR Hb Hh w r w'. unfold try_except.
  destruct (body w) as [[a|e] w1] eqn:Hbw.
  - intros [= <- <-]. by eapply Hb.
  - intros Hhw. etransitivity; [by eapply Hb | by eapply Hh].
Qed.

Lemma skip_dates_kept : preserves dates_kept (skip (F:=F)).
Proof. apply preserves_modify. by intros w k keyval. Qed.

Lemma fact_body_dates_kept row : preserves dates_kept (fact_body row).
Proof.
  unfold Etl.fact_body. destruct (negb _).
  - apply (preserves_bind dates_kept); [apply skip_dates_kept |].
    intros _. apply (preserves_ret dates_kept).
  - apply (preserves_bind dates_kept).
    { intros w r w'. rewrite normalize_run. intros [= _ <-]. by intros k keyval. }
    intros region. apply (preserves_bind dates_kept); [apply resolve_keys_dates_kept |].
    intros fact_row. destruct (has_none fact_row).
    + apply (preserves_bind dates_kept); [apply skip_dates_kept |].
      intros _. apply (preserves_ret dates_kept).
    + apply (preserves_bind dates_kept).
      { unfold Etl.insert_fact. apply (preserves_bind dates_kept).
        - apply preserves_execute. by intros w k keyval.
        - intros _. apply preserves_modify. by intros w k keyval. }
      intros _. apply (preserves_bind dates_kept).
      { apply preserves_modify. by intros w k keyval. }
      intros _. apply (preserves_ret dates_kept).
Qed.

Lemma process_row_dates_kept row : preserves dates_kept (process_row row).
Proof.
  apply preserves_try_except; [apply _ | |].
  - apply (preserves_bind dates_kept); [apply fact_body_dates_kept |].
    intros how. apply (preserves_ret dates_kept).
  - intros e. apply (preserves_bind dates_kept); [apply skip_dates_kept |].
    intros _. apply (preserves_ret dates_kept).
Qed.

Lemma load_facts_dates_kept sales_df : preserves dates_kept (load_facts sales_df).
Proof.
  induction sales_df as [|row rest IH]; simpl.
  - apply (preserves_ret dates_kept).
  - apply (preserves_bind dates_kept); [apply process_row_dates_kept | done].
Qed.

Lemma full_date_date_row ts : DateRow.full_date (date_row ts) = ts.
Proof. unfold date_row. by destruct (Calendar.civil _) as [[y m] d]. Qed.

(** After the date loop every date of the batch is in the cache, with a
    surrogate key. *)
Lemma load_dates_resolved d0 (sales_df : list (Sale.t F)) row :
  row ∈ sales_df →
  Dim.resolved_in_cache (load_dates (create_date_dimension sales_df) d0) (Sale.order_date row).
Proof.
  intros Hin. unfold load_dates, create_date_dimension.
  rewrite <- (full_date_date_row (Sale.order_date row)).
  apply load_resolved. apply list_elem_of_fmap. eexists. split; [done |].
  rewrite elem_of_unique. apply list_elem_of_fmap. by exists row.
Qed.

Lemma set_dim_date_id w : set_dim_date (dim_date w) w = w.
Proof. by destruct w. Qed.

(** A date that is in the cache is answered from it: no statement is
    sent, so the lookup cannot raise, and the state is left as it is. *)
Lemma lookup_date_cached w ts keyval :
  Dim.cache (dim_date w) !! ts = Some keyval →
  lookup_in DateRow.full_date dim_date set_dim_date ts w = (Return keyval, w).
Proof.
  intros Hc. unfold Etl.lookup_in, Dim.cached, Dim.lookup.
  rewrite Hc. rewrite bool_decide_eq_true_2 by eauto.
  by rewrite set_dim_date_id.
Qed.

(** C10: the date dimension is loaded from the distinct order dates of
    the batch, so at every row of the batch, after any rows the loop has
    processed before it, the date lookup returns a surrogate key, and the
    keys resolved for the row have that key as their date reference. *)
Theorem C10_batch_dates_always_resolve d0 sales_df w pre row post :
  dim_date w = load_dates (create_date_dimension sales_df) d0 →
  sales_df = pre ++ row :: post →
  let wi := (load_facts pre w).2 in
  ∃ keyval,
    (∀ w1, dates_kept wi w1 →
       lookup_in DateRow.full_date dim_date set_dim_date (Sale.order_date row) w1
       = (Return (Some keyval), w1)) ∧
    (∀ w1 region fact_row w2,
       dates_kept wi w1 →
       resolve_keys row region w1 = (Return fact_row, w2) →
       date_key fact_row = Some keyval).
Proof.
  intros Hdim -> wi.
  destruct (load_dates_resolved d0 (pre ++ row :: post) row) as [keyval Hc].
  { apply elem_of_app. right. apply list_elem_of_here. }
  rewrite <- Hdim in Hc.
  assert (dates_kept w wi) as Hkept.
  { unfold wi. destruct (load_facts pre w) as [r w'] eqn:Hl.
    by apply load_facts_dates_kept in Hl. }
  exists keyval. split.
  - intros w1 H1. apply lookup_date_cached. by apply H1, Hkept.
  - intros w1 region fact_row w2 H1. unfold Etl.resolve_keys.
    unfold mbind at 1, M_bind at 1, bind at 1.
    destruct (lookup_in Product.product_id _ _ _ w1) as [[pk|e] w1'] eqn:Hp; [| done].
    assert (dates_kept w1 w1') as Hp'.
    { eapply (preserves_lookup_in dates_kept); [| | exact Hp];
        unfold dates_kept; simpl; auto. }
    unfold mbind at 1, M_bind at 1, bind at 1.
    rewrite (lookup_date_cached w1' _ (Some keyval)) by by apply Hp', H1, Hkept.
    unfold mbind, M_bind, bind.
    destruct (lookup_in Customer.customer_id _ _ _ w1') as [[ck|e] w3]; [| done].
    destruct (lookup_region region w3) as [[rk|e] w4]; [| done].
    by intros [= <- _].
Qed.
End loop_facts.

(** ** Sample runs *)

Section samples.
Import Etl Sample.

Abbreviation process_row db_fails :=
  (Etl.process_row db_fails Sample.region_mapping Sample.valid_products).

Lemma C2_witness :
  let row := Sample.row "P2" "C2" (Num 10) (PStr "Mars") in
  let w := loaded [row] in
  ∃ w', process_row no_fault row w = (Return (Exited ExitUnresolved), w') ∧
        fact_sales w' = fact_sales w ∧
        skipped_records w' = S (skipped_records w) ∧
        fact_count w' = fact_count w.
Proof.
  intros row w.
  destruct (C2_unresolved_reference_is_rejected
              no_fault Sample.region_mapping Sample.valid_products row w)
    as [Hreject _].
  eapply Hreject.
  - refine (bool_decide_unpack _ _). vm_compute. exact I.
  - apply normalize_run.
  - vm_compute. reflexivity.
  - right. right. right. reflexivity.
Defined.

Lemma C3_witness :
  let row := Sample.row "P4" "C1" (Num 0) (PStr "north") in
  let w := loaded [row] in
  process_row no_fault row w =
  (Return (Exited ExitInvalidProduct), set_skipped_records (S (skipped_records w)) w).
Proof.
  intros row w. apply C3_unknown_product_short_circuits.
  refine (proj1 (bool_decide_eq_false _) _). vm_compute. reflexivity.
Defined.

Lemma C4_witness :
  let row := Sample.row "P1" "C1" (Num 0) (PStr "north") in
  let w := loaded [row] in
  ∃ w1,
    process_row first_fails row w =
      (Return (Caught (DatabaseError 0)),
       set_skipped_records (S (skipped_records w1)) w1) ∧
    fact_sales w1 = fact_sales w ∧ fact_count w1 = fact_count w ∧
    skipped_records w1 = skipped_records w.
Proof.
  intros row w.
  destruct (C4_row_exception_is_caught
              first_fails Sample.region_mapping Sample.valid_products [row] w)
    as [Hcaught _].
  eexists. apply Hcaught. vm_compute. reflexivity.
Defined.

(** C8, counterexample: the two batches print the same lines, "Loaded 0
    sales facts" and "Skipped 1 records", although the first row is
    rejected for its product and the second for an unresolved reference:
    the report does not tell the two reasons apart. *)
Lemma C8_counterexample :
  stdout (run no_fault unknown_product_batch) =
    stdout (run no_fault unknown_customer_batch) ∧
  stdout (run no_fault unknown_product_batch) =
    [ MsgProcessed "products" 3; MsgProcessed "dates" 1;
      MsgProcessed "customers" 2; MsgProcessed "regions" 4;
      MsgLoadedFacts 0; MsgSkipped 1 ] ∧
  run_outcomes no_fault unknown_product_batch = [Exited ExitInvalidProduct] ∧
  run_outcomes no_fault unknown_customer_batch = [Exited ExitUnresolved] ∧
  (count_exits ExitInvalidProduct (run_outcomes no_fault unknown_product_batch),
   count_exits ExitUnresolved (run_outcomes no_fault unknown_product_batch)) ≠
  (count_exits ExitInvalidProduct (run_outcomes no_fault unknown_customer_batch),
   count_exits ExitUnresolved (run_outcomes no_fault unknown_customer_batch)).
Proof. repeat split; try (vm_compute; reflexivity). vm_compute. discriminate. Qed.

Lemma C8_witness :
  let sales_df := unknown_product_batch ++ unknown_customer_batch ++
                  [Sample.row "P1" "C1" NaN (PStr "north")] in
  let w := loaded sales_df in
  let os := run_outcomes no_fault sales_df in
  stdout (run no_fault sales_df) =
  stdout (load_facts no_fault Sample.region_mapping Sample.valid_products sales_df w).2 ++
    MsgLoadedFacts (count_exits ExitLoaded os) ::
    (if bool_decide
          (0 < count_exits ExitInvalidProduct os + count_exits ExitUnresolved os +
               count_caught os)%nat
     then [MsgSkipped (count_exits ExitInvalidProduct os +
                       count_exits ExitUnresolved os + count_caught os)]
     else []).
Proof.
  intros sales_df w os.
  apply (C8_report_has_one_skip_total
           no_fault Sample.region_mapping Sample.valid_products sales_df w);
    reflexivity.
Defined.

(** C9, counterexample: a transaction read with a missing discount is
    loaded, and the discount of its fact row is NaN, not 0. *)
Lemma C9_counterexample :
  ∃ row fact_row,
    transform_sale raw_sale_without_discount = Some row ∧
    fisnan (Sale.discount row) = true ∧
    fact_sales (run no_fault [row]) = [fact_row] ∧
    fisnan (FactRow.discount fact_row) = true ∧
    FactRow.discount fact_row ≠ Num 0.
Proof.
  eexists _, _. split; [reflexivity |]. split; [reflexivity |].
  split; [vm_compute; reflexivity |]. split; [reflexivity | discriminate].
Qed.

Lemma C9_witness :
  let r := raw_sale_without_discount in
  let row := Sample.row "P1" "C1" NaN (PStr "north") in
  let w := loaded [row] in
  let w' := (process_row no_fault row w).2 in
  Sale.discount row = RawSale.discount r ∧
  Sale.total_amount row = fround2 (fmul (RawSale.quantity r) (RawSale.unit_price r)) ∧
  (fact_sales w' = fact_sales w ∨
   ∃ fact_row, fact_sales w' = fact_sales w ++ [fact_row] ∧
     FactRow.discount fact_row = RawSale.discount r ∧
     FactRow.total_amount fact_row =
       fround2 (fmul (RawSale.quantity r) (RawSale.unit_price r))).
Proof.
  intros r row w w'.
  apply (C9_discount_is_carried_as_read
           no_fault Sample.region_mapping Sample.valid_products r row w
           (process_row no_fault row w).1 w').
  - reflexivity.
  - apply surjective_pairing.
Defined.

Lemma C10_witness :
  let row1 := Sample.row "P1" "C9" (Num 0) (PStr "north") in
  let row2 := Sample.row "P2" "C2" (Num 10) (PStr "Mars") in
  let w := loaded [row1; row2] in
  let wi := (load_facts first_fails Sample.region_mapping Sample.valid_products
               [row1] w).2 in
  ∃ keyval,
    (∀ w1, dates_kept wi w1 →
       lookup_in first_fails DateRow.full_date dim_date set_dim_date
                 (Sale.order_date row2) w1
       = (Return (Some keyval), w1)) ∧
    (∀ w1 region fact_row w2,
       dates_kept wi w1 →
       resolve_keys first_fails row2 region w1 = (Return fact_row, w2) →
       date_key fact_row = Some keyval).
Proof.
  intros row1 row2 w wi.
  apply (C10_batch_dates_always_resolve
           first_fails Sample.region_mapping Sample.valid_products
           (Dim.connect []) [row1; row2] w [row1] row2 []);
    reflexivity.
Defined.

Example sample_run :
  (* the batch of the specification's scenarios: a known product, an
     unknown one, an unknown region *)
  let w := run no_fault
             [ Sample.row "P1" "C1" NaN (PStr " North ");
               Sample.row "P4" "C1" (Num 0) (PStr "north");
               Sample.row "P2" "C2" (Num 10) (PStr "Mars");
               Sample.row "P2" "C2" (Num 10) (PStr "emea") ] in
  fact_count w = 1%nat ∧ skipped_records w = 3%nat ∧ statements w = 3%nat ∧
  stdout w = [ MsgProcessed "products" 3; MsgProcessed "dates" 1;
               MsgProcessed "customers" 2; MsgProcessed "regions" 4;
               MsgNoRegionMatch "Mars"; MsgLoadedFacts 1; MsgSkipped 3 ].
Proof. vm_compute. done. Qed.
End samples.

(** * Further properties *)

(** ** The region normaliser, branch by branch *)

Section normaliser_branches.
Import PyStr Region.

Implicit Types (region_names : list string) (s k v : string) (x : pyval).






Lemma get_elem_of_values (m : PyDict.t string) k v :
  PyDict.get m k = Some v → v ∈ PyDict.values m.
Proof.
  intros Hg%get_Some_elem_of. unfold PyDict.values.
  apply list_elem_of_fmap. by exists (k, v).
Qed.

Lemma partial_match_elem_of_values (m : PyDict.t string) k k' v :
  partial_match m k = Some (k', v) → v ∈ PyDict.values m.
Proof.
  unfold partial_match. intros [Hin _]%find_some.
  apply list_elem_of_fmap. exists (k', v). split; [done |]. by apply list_elem_of_In.
Qed.

(** X1: the normaliser returns null exactly for the null of Python, for NaN
    and for the empty text; any other text, blank ones included, is turned
    into a name. *)
Theorem normalize_null_iff x (m : PyDict.t string) :
  (normalize_region_name x m).1 = PNone ↔ x = PNone ∨ x = PNaN ∨ x = PStr "".
Proof.
  split.
  - destruct x as [| |s]; [by left | by right; left |].
    destruct s as [|c s]; [by right; right |].
    unfold normalize_region_name. simpl.
    destruct (PyDict.get _ _); [done |].
    destruct (partial_match _ _) as [[? ?]|]; [done |].
    by case_decide.
  - by intros [-> | [-> | ->]].
Qed.

(** X2: the normaliser prints at most one line, and it prints it exactly
    when the name it returns is not a value of the mapping: a name it made
    up from the input, which is then the title-cased form of the stripped,
    lower-cased input. *)
Theorem normalize_warns_iff_fabricated x (m : PyDict.t string) :
  let result := (normalize_region_name x m).1 in
  let printed := (normalize_region_name x m).2 in
  (printed = [] ↔
   result = PNone ∨ ∃ v, result = PStr v ∧ v ∈ PyDict.values m) ∧
  (printed = [] ∨
   ∃ s, x = PStr s ∧ printed = [MsgNoRegionMatch s] ∧
        result = PStr (title (lower (strip s)))).
Proof.
  destruct x as [| |s]; try (split; [split; [by left | done] | by left]).
  unfold normalize_region_name.
  destruct (truthy s); simpl; [| split; [split; [by left | done] | by left]].
  destruct (PyDict.get m _) as [v|] eqn:Hg; simpl.
  { split; [| by left]. split; [| done]. right. exists v.
    split; [done |]. by eapply get_elem_of_values. }
  destruct (partial_match m _) as [[k' v]|] eqn:Hp; simpl.
  { split; [| by left]. split; [| done]. right. exists v.
    split; [done |]. by eapply partial_match_elem_of_values. }
  case_decide as Ht; simpl.
  - split; [| by left]. split; [| done]. right. by eexists.
  - split; [| right; by exists s]. split; [done |].
    intros [? | (v & [= <-] & Hv)]; done.
Qed.



End normaliser_branches.

(** ** Transformation *)

Section transformation.
Context {F : Type} `{Pandas F}.
Import Etl.



Implicit Types (df : list Customer.t) (seen : list string).

Abbreviation ids df := (map Customer.customer_id df).

Lemma drop_duplicates_ids seen df id :
  id ∈ ids (drop_duplicates seen df) ↔ id ∈ ids df ∧ id ∉ seen.
Proof.
  revert seen. induction df as [|c df IH]; intros seen; simpl.
  - rewrite elem_of_nil. naive_solver.
  - case_decide as Hc; simpl; rewrite ?elem_of_cons, IH, ?not_elem_of_cons.
    + naive_solver.
    + destruct (decide (id = Customer.customer_id c)); naive_solver.
Qed.

Lemma drop_duplicates_NoDup seen df : NoDup (ids (drop_duplicates seen df)).
Proof.
  revert seen. induction df as [|c df IH]; intros seen; simpl; [constructor |].
  case_decide; [done |]. simpl. constructor; [| done].
  rewrite drop_duplicates_ids, not_elem_of_cons. naive_solver.
Qed.

Lemma drop_duplicates_sublist seen df : sublist (drop_duplicates seen df) df.
Proof.
  revert seen. induction df as [|c df IH]; intros seen; simpl; [constructor |].
  case_decide; [by apply sublist_cons | by apply sublist_skip].
Qed.

Lemma drop_duplicates_first seen df c :
  c ∈ drop_duplicates seen df →
  List.find (fun c' => bool_decide (Customer.customer_id c' = Customer.customer_id c)) df
  = Some c.
Proof.
  revert seen. induction df as [|c0 df IH]; intros seen; simpl; [by intros ?%elem_of_nil |].
  case_decide as Hseen.
  - intros Hin. case_bool_decide as Hid; [| by eapply IH].
    apply (list_elem_of_fmap_2 Customer.customer_id) in Hin.
    apply drop_duplicates_ids in Hin as [_ Hin]. congruence.
  - intros [-> | Hin]%elem_of_cons; [by rewrite bool_decide_eq_true_2 |].
    case_bool_decide as Hid; [| by eapply IH].
    apply (list_elem_of_fmap_2 Customer.customer_id) in Hin.
    apply drop_duplicates_ids in Hin as [_ Hin].
    rewrite not_elem_of_cons in Hin. naive_solver.
Qed.

Lemma drop_duplicates_fresh seen df :
  NoDup (ids df) → (∀ id, id ∈ ids df → id ∉ seen) → drop_duplicates seen df = df.
Proof.
  revert seen. induction df as [|c df IH]; intros seen Hn Hs; simpl; [done |].
  simpl in Hn. apply NoDup_cons in Hn as [Hc Hn].
  rewrite decide_False by (apply Hs; simpl; apply list_elem_of_here).
  f_equal. apply IH; [done |]. intros id Hid. rewrite not_elem_of_cons. split.
  - intros ->. done.
  - apply Hs. simpl. by apply list_elem_of_further.
Qed.

Lemma transform_customer_data_ids df id :
  id ∈ ids (transform_customer_data df) ↔ id ∈ ids df.
Proof.
  unfold transform_customer_data. split.
  - by intros [? _]%drop_duplicates_ids.
  - intros Hid. apply drop_duplicates_ids. split; [done | apply not_elem_of_nil].
Qed.

(** X5: [transform_customer_data] keeps one row per customer, the first of
    the frame: the customers of the result are pairwise distinct and are
    those of the frame, the rows kept are rows of the frame in their order,
    and the row kept for a customer is the first row of that customer. *)
Theorem transform_customer_data_keeps_first df :
  let customer_df := transform_customer_data df in
  NoDup (ids customer_df) ∧
  (∀ id, id ∈ ids customer_df ↔ id ∈ ids df) ∧
  sublist customer_df df ∧
  (∀ c, c ∈ customer_df →
     List.find (fun c' => bool_decide (Customer.customer_id c' = Customer.customer_id c)) df
     = Some c).
Proof.
  split; [apply drop_duplicates_NoDup |].
  split; [apply transform_customer_data_ids |].
  split; [apply drop_duplicates_sublist | apply drop_duplicates_first].
Qed.

(** X6: [transform_customer_data] changes nothing in a frame without
    duplicate customers, so applying it twice is applying it once. *)
Theorem transform_customer_data_idempotent df :
  (NoDup (ids df) → transform_customer_data df = df) ∧
  transform_customer_data (transform_customer_data df) = transform_customer_data df.
Proof.
  assert (∀ df', NoDup (ids df') → transform_customer_data df' = df') as Hfix.
  { intros df' Hn. apply drop_duplicates_fresh; [done |]. intros id _. apply not_elem_of_nil. }
  split; [apply Hfix |]. apply Hfix, drop_duplicates_NoDup.
Qed.

(** *** The date dimension *)

Lemma civil_ranges z :
  let '(y, m, d) := Calendar.civil z in 1 ≤ m ≤ 12 ∧ 1 ≤ d ≤ 31.
Proof.
  unfold Calendar.civil.
  set (z' := z + 719468). set (era := z' / 146097).
  set (doe := z' - era * 146097).
  assert (0 ≤ doe < 146097) as Hdoe
    by (unfold doe, era; Z.to_euclidean_division_equations; lia).
  clearbody doe. clear z z' era.
  set (yoe := (doe - doe / 1460 + doe / 36524 - doe / 146096) / 365).
  set (doy := doe - (365 * yoe + yoe / 4 - yoe / 100)).
  assert (0 ≤ doy ≤ 365) as Hdoy
    by (unfold doy, yoe; Z.to_euclidean_division_equations; lia).
  clearbody doy. clear yoe.
  set (mp := (5 * doy + 2) / 153).
  assert (0 ≤ mp ≤ 11) as Hmp by (unfold mp; Z.to_euclidean_division_equations; lia).
  assert (1 ≤ doy - (153 * mp + 2) / 5 + 1 ≤ 31) as Hd
    by (unfold mp; Z.to_euclidean_division_equations; lia).
  clearbody mp.
  destruct (mp <? 10) eqn:Hlt; [apply Z.ltb_lt in Hlt | apply Z.ltb_ge in Hlt]; lia.
Qed.

Lemma unique_from_length {A} `{EqDecision A} (seen l : list A) :
  (length (unique_from seen l) ≤ length l)%nat.
Proof.
  revert seen. induction l as [|x l IH]; intros seen; simpl; [done |].
  case_decide; simpl; [specialize (IH seen) | specialize (IH (x :: seen))]; lia.
Qed.

Lemma create_date_dimension_dates (sales_df : list (Sale.t F)) :
  map DateRow.full_date (create_date_dimension sales_df)
  = unique (map Sale.order_date sales_df).
Proof.
  unfold create_date_dimension.
  rewrite map_map. rewrite <- (map_id (unique _)) at 2.
  apply map_ext. intros ts. apply full_date_date_row.
Qed.

(** X7: [create_date_dimension] makes one row per distinct order date of
    the frame: the dates of its rows are pairwise distinct, they are the
    order dates of the frame, and there are at most as many as sales. *)
Theorem create_date_dimension_one_row_per_date (sales_df : list (Sale.t F)) :
  let date_df := create_date_dimension sales_df in
  NoDup (map DateRow.full_date date_df) ∧
  (∀ ts, ts ∈ map DateRow.full_date date_df ↔ ts ∈ map Sale.order_date sales_df) ∧
  (length date_df ≤ length sales_df)%nat.
Proof.
  cbv zeta. rewrite create_date_dimension_dates.
  split; [apply NoDup_unique |]. split; [intros ts; apply elem_of_unique |].
  unfold create_date_dimension.
  rewrite length_map. etransitivity; [apply unique_from_length |]. by rewrite length_map.
Qed.

(** X8: the attributes of a row of the date dimension are those of a
    calendar date: the month is from 1 to 12, the day from 1 to 31, the
    quarter is the one of the month, the weekday is one of the seven names,
    and the weekend flag is set exactly on Saturday and Sunday. *)
Theorem date_row_attributes (full_date : Z) :
  let r := date_row full_date in
  DateRow.full_date r = full_date ∧
  1 ≤ DateRow.month r ≤ 12 ∧
  1 ≤ DateRow.day r ≤ 31 ∧
  1 ≤ DateRow.quarter r ≤ 4 ∧
  3 * DateRow.quarter r - 2 ≤ DateRow.month r ≤ 3 * DateRow.quarter r ∧
  DateRow.day_of_week r ∈ Calendar.day_names ∧
  (DateRow.is_weekend r = true ↔ DateRow.day_of_week r ∈ ["Saturday"; "Sunday"]).
Proof.
  unfold date_row. pose proof (civil_ranges (Calendar.days full_date)) as Hc.
  destruct (Calendar.civil _) as [[y m] d]. simpl. destruct Hc as [Hm Hd].
  split; [done |]. split; [done |]. split; [done |].
  split; [Z.to_euclidean_division_equations; lia |].
  split; [Z.to_euclidean_division_equations; lia |].
  unfold Calendar.day_name.
  assert (0 ≤ Calendar.dayofweek full_date < 7) as Hn
    by (unfold Calendar.dayofweek; Z.to_euclidean_division_equations; lia).
  set (n := Calendar.dayofweek full_date) in *. clearbody n.
  assert (n = 0 ∨ n = 1 ∨ n = 2 ∨ n = 3 ∨ n = 4 ∨ n = 5 ∨ n = 6) as Hcases by lia.
  destruct Hcases as [-> | [-> | [-> | [-> | [-> | [-> | ->]]]]]];
    (split; [vm_compute; set_solver |]);
    rewrite bool_decide_eq_true; vm_compute; set_solver.
Qed.
End transformation.

(** ** The dimension loops *)

Section dim_load.
Context {K : Type} `{Countable K} {A : Type}.
Variable natkey : A → K.

Implicit Types (d : Dim.t K A) (a : A) (k : K) (l : list A).

Abbreviation select := (Dim.select natkey).
Abbreviation load_row := (Dim.load_row natkey).
Abbreviation load := (Dim.load natkey).
Abbreviation wf := (Dim.wf natkey).
Abbreviation rows_of := (Dim.rows_of natkey).

Lemma load_row_maxid test d a :
  wf d →
  Dim.maxid (load_row test d a) =
  match select (Dim.rows d) (natkey a) with
  | Some _ => Dim.maxid d
  | None => Dim.maxid d + 1
  end.
Proof.
  intros Hwf. unfold Dim.load_row.
  pose proof (lookup_answer natkey d (natkey a) Hwf) as Ha.
  pose proof (lookup_maxid natkey d (natkey a)) as Hm.
  pose proof (is_miss_select natkey test d (natkey a) Hwf) as Hmiss.
  destruct (Dim.lookup natkey d (natkey a)) as [keyval d1]. simpl in *. subst keyval.
  destruct (select (Dim.rows d) (natkey a)) as [kv|] eqn:Hs.
  - destruct (Dim.is_miss test (Some kv)); [| done].
    pose proof (proj1 Hmiss eq_refl). discriminate.
  - rewrite (proj2 Hmiss eq_refl). simpl. by rewrite Hm.
Qed.

(** The rows a loop writes: they come after the rows that were there, each
    under the next surrogate key, with the attributes of a row of the
    frame whose natural key was not in the table. *)
Lemma load_appends test d l :
  wf d →
  ∃ new,
    Dim.rows (load test d l) = Dim.rows d ++ new ∧
    Dim.maxid (load test d l) = Dim.maxid d + Z.of_nat (length new) ∧
    (length new ≤ length l)%nat ∧
    (∀ i r, new !! i = Some r →
       Dim.key r = Dim.maxid d + 1 + Z.of_nat i ∧ Dim.data r ∈ l ∧
       select (Dim.rows d) (natkey (Dim.data r)) = None).
Proof.
  revert d. induction l as [|a l IH]; intros d Hwf.
  - exists []. simpl. rewrite app_nil_r.
    split; [done |]. split; [lia |]. split; [lia |]. intros i r Hi. done.
  - simpl. destruct (IH (load_row test d a) (load_row_wf natkey test d a Hwf))
      as (new & Hrows & Hmax & Hlen & Hnew).
    rewrite load_row_rows, load_row_maxid in * by done.
    destruct (select (Dim.rows d) (natkey a)) as [kv|] eqn:Hs.
    + exists new. split; [done |]. split; [done |]. split; [simpl; lia |].
      intros i r Hi. destruct (Hnew i r Hi) as (? & ? & ?).
      split; [done |]. split; [by apply list_elem_of_further | done].
    + exists (Dim.Row (Dim.maxid d + 1) a :: new).
      split; [by rewrite Hrows, <- app_assoc |].
      split; [rewrite Hmax; simpl; lia |]. split; [simpl; lia |].
      intros [|i] r Hi; simpl in Hi.
      * injection Hi as <-. simpl. split; [lia |]. split; [apply list_elem_of_here | done].
      * destruct (Hnew i r Hi) as (Hk & Hd & Hn).
        split; [lia |]. split; [by apply list_elem_of_further |].
        rewrite select_app in Hn.
        by destruct (select (Dim.rows d) (natkey (Dim.data r))).
Qed.

(** X9: a dimension loop only appends: the rows that were in the table
    stay as they were, before the new ones; the new rows carry the
    consecutive surrogate keys after the greatest one, in the order of the
    frame, so that all keys of the table stay distinct when they were; and
    no more rows are written than the frame has. *)
Theorem dimension_load_appends_fresh_keys test d l :
  wf d →
  ∃ new,
    Dim.rows (load test d l) = Dim.rows d ++ new ∧
    (length new ≤ length l)%nat ∧
    (∀ i r, new !! i = Some r → Dim.key r = Dim.maxid d + 1 + Z.of_nat i) ∧
    (NoDup (map Dim.key (Dim.rows d)) → NoDup (map Dim.key (Dim.rows (load test d l)))).
Proof.
  intros Hwf. destruct (load_appends test d l Hwf) as (new & Hrows & _ & Hlen & Hnew).
  exists new. split; [done |]. split; [done |].
  split; [intros i r Hi; by destruct (Hnew i r Hi) |].
  intros Hnd. rewrite Hrows, map_app. apply NoDup_app. split; [done |]. split.
  - intros key Hold Hin.
    apply list_elem_of_fmap in Hold as (r & -> & Hr).
    apply list_elem_of_fmap in Hin as (r' & Heq & Hr').
    apply list_elem_of_lookup in Hr' as [i Hi]. destruct (Hnew i r' Hi) as [Hk _].
    pose proof (Dim.wf_keys _ _ Hwf) as Hkeys. rewrite Forall_forall in Hkeys.
    specialize (Hkeys r Hr). lia.
  - apply NoDup_alt. intros i j key Hi Hj.
    rewrite list_lookup_fmap in Hi, Hj.
    destruct (new !! i) as [ri|] eqn:Hri; [| done].
    destruct (new !! j) as [rj|] eqn:Hrj; [| done].
    injection Hi as <-. injection Hj as Hj.
    destruct (Hnew i ri Hri) as [Hki _]. destruct (Hnew j rj Hrj) as [Hkj _]. lia.
Qed.

Lemma load_resolves test d l k :
  wf d →
  is_Some (select (Dim.rows (load test d l)) k) ↔
  is_Some (select (Dim.rows d) k) ∨ k ∈ map natkey l.
Proof.
  intros Hwf. split.
  - intros Hs. destruct (load_appends test d l Hwf) as (new & Hrows & _ & _ & Hnew).
    rewrite Hrows in Hs. apply select_is_Some in Hs.
    rewrite map_app, elem_of_app in Hs. destruct Hs as [Hs | Hs].
    + left. by apply select_is_Some.
    + right. apply list_elem_of_fmap in Hs as (r & -> & Hr).
      apply list_elem_of_lookup in Hr as [i Hi]. destruct (Hnew i r Hi) as (_ & Hd & _).
      by apply list_elem_of_fmap_2.
  - intros [[keyval Hs] | Hk].
    + exists keyval. by apply load_keeps.
    + apply list_elem_of_fmap in Hk as (a & -> & Ha). by apply load_present.
Qed.

(** X10: after a dimension loop the table resolves exactly the natural
    keys it resolved before and those of the frame, and a key it resolved
    before resolves to the same surrogate key. *)
Theorem dimension_load_resolves_frame test d l :
  wf d →
  (∀ k, is_Some (select (Dim.rows (load test d l)) k) ↔
        is_Some (select (Dim.rows d) k) ∨ k ∈ map natkey l) ∧
  (∀ k keyval, select (Dim.rows d) k = Some keyval →
               select (Dim.rows (load test d l)) k = Some keyval).
Proof.
  intros Hwf. split; [| intros k keyval; by apply load_keeps].
  intros k. by apply load_resolves.
Qed.

Lemma rows_of_nil d k : select (Dim.rows d) k = None → rows_of d k = [].
Proof.
  unfold Dim.rows_of. intros Hs%select_None.
  induction (Dim.rows d) as [|r table IH]; [done |].
  simpl in Hs. rewrite not_elem_of_cons in Hs. destruct Hs as [Hne Hs].
  rewrite filter_cons. rewrite decide_False by done. auto.
Qed.

Lemma load_row_rows_of_other test d a k :
  wf d → natkey a ≠ k → rows_of (load_row test d a) k = rows_of d k.
Proof.
  intros Hwf Hne. unfold Dim.rows_of. rewrite load_row_rows by done.
  destruct (select (Dim.rows d) (natkey a)); [done |].
  rewrite filter_app, filter_cons. simpl. rewrite decide_False by done.
  rewrite filter_nil. apply app_nil_r.
Qed.

Lemma load_rows_of_present test d l k :
  wf d → is_Some (select (Dim.rows d) k) → rows_of (load test d l) k = rows_of d k.
Proof.
  revert d. induction l as [|a l IH]; intros d Hwf Hs; simpl; [done |].
  rewrite IH.
  - destruct (decide (natkey a = k)) as [<- | Hne]; [| by apply load_row_rows_of_other].
    unfold Dim.rows_of. rewrite load_row_rows by done. by destruct Hs as [kv ->].
  - by apply load_row_wf.
  - destruct Hs as [kv Hs]. exists kv. by apply load_row_keeps.
Qed.

(** X11: a dimension loop never updates a row. For a natural key that the
    table has, the frame is ignored and the row stays as it was; for a
    natural key that it has not, the one row written has the attributes of
    the first row of the frame with that key, and later rows with the
    same key are ignored. *)
Theorem dimension_load_first_row_wins test d l :
  wf d →
  (∀ k, is_Some (select (Dim.rows d) k) → rows_of (load test d l) k = rows_of d k) ∧
  (∀ k a, select (Dim.rows d) k = None →
          List.find (fun a' => bool_decide (natkey a' = k)) l = Some a →
          ∃ keyval, rows_of (load test d l) k = [Dim.Row keyval a]).
Proof.
  intros Hwf. split; [intros k; by apply load_rows_of_present |].
  revert d Hwf. induction l as [|a0 l IH]; intros d Hwf k a Hs Hfind; [done |].
  simpl in *. case_bool_decide as Hk.
  - injection Hfind as <-. subst k.
    rewrite load_rows_of_present.
    + exists (Dim.maxid d + 1). unfold Dim.rows_of. rewrite load_row_rows, Hs by done.
      rewrite filter_app. fold (rows_of d (natkey a0)). rewrite rows_of_nil by done.
      rewrite filter_cons. simpl. by rewrite decide_True.
    + by apply load_row_wf.
    + by apply load_row_present.
  - apply IH; [by apply load_row_wf | | done].
    rewrite load_row_rows by done.
    destruct (select (Dim.rows d) (natkey a0)); [done |].
    rewrite select_app, Hs. simpl. by rewrite decide_False.
Qed.
End dim_load.

(** ** The fact loop, as a whole *)

Section loop_whole.
Context {F : Type} `{Pandas F}.
Variable db_fails : nat → bool.
Variable region_mapping : PyDict.t string.
Variable valid_products : gset string.

Import Etl Loader.

Implicit Types (w : World F) (row : Sale.t F) (sales_df : list (Sale.t F)).

Abbreviation M := (M (F:=F)).
Abbreviation execute := (execute db_fails).
Abbreviation lookup_in := (lookup_in db_fails).
Abbreviation lookup_region := (lookup_region db_fails).
Abbreviation normalize := (normalize region_mapping).
Abbreviation resolve_keys := (resolve_keys db_fails).
Abbreviation insert_fact := (insert_fact db_fails).
Abbreviation fact_body := (fact_body db_fails region_mapping valid_products).
Abbreviation process_row := (process_row db_fails region_mapping valid_products).
Abbreviation load_facts := (load_facts db_fails region_mapping valid_products).
Abbreviation outcomes := (outcomes db_fails region_mapping valid_products).
Abbreviation same_tables := (same_tables (F:=F)).
Abbreviation caches_kept := (caches_kept (F:=F)).
Abbreviation wf_kept := (wf_kept (F:=F)).
Abbreviation same_counts := (same_counts (F:=F)).
Abbreviation spends := (spends (F:=F)).
Abbreviation sends_at_most := (sends_at_most (F:=F)).

(** A relation that every step of the loop keeps is kept by the loop. *)
Lemma preserves_load_facts (R : relation (World F)) `{!PreOrder R} sales_df :
  (∀ w n, R w (set_statements n w)) →
  (∀ w out, R w (set_stdout out w)) →
  (∀ w n, R w (set_skipped_records n w)) →
  (∀ w n, R w (set_fact_count n w)) →
  (∀ w fs, R w (set_fact_sales fs w)) →
  (∀ w k, R w (set_dim_product (Dim.lookup Product.product_id (dim_product w) k).2 w)) →
  (∀ w k, R w (set_dim_date (Dim.lookup DateRow.full_date (dim_date w) k).2 w)) →
  (∀ w k, R w (set_dim_customer (Dim.lookup Customer.customer_id (dim_customer w) k).2 w)) →
  (∀ w k, R w (set_dim_region (Dim.lookup region_natkey (dim_region w) k).2 w)) →
  preserves R (load_facts sales_df).
Proof.
  intros Hst Hout Hsk Hfc Hfs Hp Hd Hc Hr.
  assert (preserves R (skip (F:=F))) as Hskip by (apply preserves_modify; auto).
  assert (∀ row, preserves R (process_row row)) as Hrow.
  { intros row. apply preserves_try_except; [apply _ | |].
    - apply (preserves_bind R); [| intros how; apply (preserves_ret R)].
      unfold Etl.fact_body. destruct (negb _).
      + apply (preserves_bind R); [done | intros _; apply (preserves_ret R)].
      + apply (preserves_bind R).
        { intros w r w'. rewrite normalize_run. intros [= _ <-]. apply Hout. }
        intros region. apply (preserves_bind R).
        { apply (preserves_resolve_keys db_fails R); auto. }
        intros fact_row. destruct (has_none fact_row).
        * apply (preserves_bind R); [done | intros _; apply (preserves_ret R)].
        * apply (preserves_bind R).
          { unfold Etl.insert_fact. apply (preserves_bind R).
            - apply preserves_execute. auto.
            - intros _. apply preserves_modify. auto. }
          intros _. apply (preserves_bind R); [apply preserves_modify; auto |].
          intros _. apply (preserves_ret R).
    - intros e. apply (preserves_bind R); [done | intros _; apply (preserves_ret R)]. }
  induction sales_df as [|row rest IH]; simpl.
  - apply (preserves_ret R).
  - apply (preserves_bind R); [apply Hrow | done].
Qed.

#[local] Instance table_same_preorder {K A} `{Countable K} :
  PreOrder (table_same (K:=K) (A:=A)).
Proof.
  split.
  - by intros d.
  - intros d1 d2 d3 [? ?] [? ?]. split; congruence.
Qed.

#[local] Instance cache_kept_preorder {K A} `{Countable K} :
  PreOrder (cache_kept (K:=K) (A:=A)).
Proof.
  split.
  - intros d k keyval Hc. exact Hc.
  - intros d1 d2 d3 H12 H23 k keyval Hc. apply H23, H12, Hc.
Qed.

#[local] Instance same_tables_preorder : PreOrder same_tables.
Proof.
  split.
  - intros w. split; [| split; [| split]]; reflexivity.
  - intros w1 w2 w3 (? & ? & ? & ?) (? & ? & ? & ?).
    split; [| split; [| split]]; by etransitivity.
Qed.

#[local] Instance caches_kept_preorder : PreOrder caches_kept.
Proof.
  split.
  - intros w. split; [| split; [| split]]; reflexivity.
  - intros w1 w2 w3 (? & ? & ? & ?) (? & ? & ? & ?).
    split; [| split; [| split]]; by etransitivity.
Qed.

#[local] Instance wf_kept_preorder : PreOrder wf_kept.
Proof.
  split.
  - intros w Hwf. exact Hwf.
  - intros w1 w2 w3 H12 H23 Hwf. apply H23, H12, Hwf.
Qed.

Lemma lookup_table_same {K A} `{Countable K} (natkey : A → K) (d : Dim.t K A) k :
  table_same d (Dim.lookup natkey d k).2.
Proof. split; [apply lookup_rows | apply lookup_maxid]. Qed.

Lemma lookup_cache_kept {K A} `{Countable K} (natkey : A → K) (d : Dim.t K A) k :
  cache_kept d (Dim.lookup natkey d k).2.
Proof. intros k' keyval. apply lookup_cache_mono. Qed.

Lemma load_facts_same_tables sales_df : preserves same_tables (load_facts sales_df).
Proof.
  apply (preserves_load_facts same_tables);
    try (intros; split; [| split; [| split]]; reflexivity);
    intros w0 k; (split; [| split; [| split]]); try reflexivity;
    apply lookup_table_same.
Qed.

Lemma load_facts_caches_kept sales_df : preserves caches_kept (load_facts sales_df).
Proof.
  apply (preserves_load_facts caches_kept);
    try (intros; split; [| split; [| split]]; reflexivity);
    intros w0 k; (split; [| split; [| split]]); try reflexivity;
    apply lookup_cache_kept.
Qed.

Lemma load_facts_wf_kept sales_df : preserves wf_kept (load_facts sales_df).
Proof.
  apply (preserves_load_facts wf_kept); try (intros w0 ? Hwf; exact Hwf);
    intros w0 k (? & ? & ? & ?); (split; [| split; [| split]]); simpl;
    try done; by apply lookup_wf.
Qed.

(** X12: the fact loop never writes a dimension row: whatever the
    database refuses, the rows and the key counter of the four dimensions
    are after the loop what they were before it. It only fills the
    caches: an answer that was cached stays cached, and dimensions in a
    well-formed state stay so. *)
Theorem fact_loop_leaves_dimension_tables sales_df w :
  let w' := (load_facts sales_df w).2 in
  same_tables w w' ∧ caches_kept w w' ∧ (dims_wf w → dims_wf w').
Proof.
  destruct (load_facts sales_df w) as [r w'] eqn:Hl. simpl.
  split; [by apply (load_facts_same_tables sales_df w r w') |].
  split; [by apply (load_facts_caches_kept sales_df w r w') |].
  by apply (load_facts_wf_kept sales_df w r w').
Qed.

(** X13: the fact loop only appends to the fact table: the facts that were
    there stay, before the new ones; there are as many new facts as the
    loop counted, at most one per transaction; and each new fact has its
    four keys and the measures of a transaction of the batch. *)
Theorem fact_loop_appends_counted_facts sales_df w :
  let w' := (load_facts sales_df w).2 in
  ∃ new,
    fact_sales w' = fact_sales w ++ new ∧
    fact_count w' = (fact_count w + length new)%nat ∧
    (length new ≤ length sales_df)%nat ∧
    Forall (fun fact_row => ∃ row pk dk ck rk,
              row ∈ sales_df ∧
              fact_row = with_measures
                           (MkKeyRefs (Some pk) (Some dk) (Some ck) (Some rk)) row) new.
Proof.
  revert w. induction sales_df as [|row rest IH]; intros w.
  - exists []. simpl. rewrite app_nil_r.
    split; [done |]. split; [lia |]. split; [lia | constructor].
  - cbv zeta in *. rewrite load_facts_cons.
    destruct (process_row_counts db_fails region_mapping valid_products row w)
      as (o & w1 & Hrow & Hcase).
    rewrite Hrow. simpl.
    destruct (IH w1) as (new & Hfs & Hfc & Hlen & Hnew).
    assert (Forall (fun fact_row => ∃ row0 pk dk ck rk,
              row0 ∈ row :: rest ∧
              fact_row = with_measures
                           (MkKeyRefs (Some pk) (Some dk) (Some ck) (Some rk)) row0) new)
      as Hnew'.
    { eapply Forall_impl; [exact Hnew |]. intros fr (row0 & pk & dk & ck & rk & Hin & ->).
      exists row0, pk, dk, ck, rk. split; [by apply list_elem_of_further | done]. }
    destruct o as [[]|e].
    1, 2, 4: destruct Hcase as (Hfs1 & Hfc1 & _); exists new;
      rewrite Hfs, Hfc, Hfs1, Hfc1; repeat split; [lia | done].
    destruct Hcase as (fact_row & Hnone & Hfs1 & Hfc1 & _).
    exists (with_measures fact_row row :: new).
    rewrite Hfs, Hfc, Hfs1, Hfc1, <- app_assoc. simpl.
    repeat split; [lia | lia |]. constructor; [| done].
    apply has_none_false in Hnone as (pk & dk & ck & rk & ->).
    exists row, pk, dk, ck, rk. split; [apply list_elem_of_here | done].
Qed.

(** *** Statements *)

Lemma spends_ret {A} (a : A) : spends 0 (mret a : M A).
Proof. intros w r w' [= _ <-]. unfold sends_at_most. lia. Qed.

Lemma spends_bind n1 n2 {A B} (m : M A) (k : A → M B) :
  spends n1 m → (∀ a, spends n2 (k a)) → spends (n1 + n2) (m ≫= k).
Proof.
  intros Hm Hk w r w'. unfold mbind, M_bind, bind.
  destruct (m w) as [[a|e] w1] eqn:Hmw.
  - intros Hkw. specialize (Hm _ _ _ Hmw). specialize (Hk _ _ _ _ Hkw).
    unfold sends_at_most in *. lia.
  - intros [= _ <-]. specialize (Hm _ _ _ Hmw). unfold sends_at_most in *. lia.
Qed.

Lemma spends_modify (f : World F → World F) :
  (∀ w, statements (f w) = statements w) → spends 0 (modify f).
Proof. intros Hf w r w' [= _ <-]. unfold sends_at_most. rewrite Hf. lia. Qed.

Lemma spends_execute : spends 1 execute.
Proof.
  intros w r w'. unfold Etl.execute, sends_at_most.
  destruct (db_fails _); intros [= _ <-]; simpl; lia.
Qed.

Lemma spends_lookup_in {K A} `{Countable K} (natkey : A → K) get put k :
  (∀ d w, statements (put d w) = statements w) →
  spends 1 (lookup_in natkey get put k).
Proof.
  intros Hput.
  assert (spends 0 (fun w : World F =>
            let (keyval, d) := Dim.lookup natkey (get w) k in
            (Return keyval, put d w))) as Hanswer.
  { intros w r w'. destruct (Dim.lookup natkey (get w) k). intros [= _ <-].
    unfold sends_at_most. rewrite Hput. lia. }
  intros w r w'. unfold Etl.lookup_in. destruct (Dim.cached (get w) k).
  - intros Hw. specialize (Hanswer _ _ _ Hw). unfold sends_at_most in *. lia.
  - apply (spends_bind 1 0); [apply spends_execute | intros _; apply Hanswer].
Qed.

Lemma spends_process_row row : spends 5 (process_row row).
Proof.
  assert (spends 0 (skip (F:=F))) as Hskip by by apply spends_modify.
  assert (spends 5 (fact_body row)) as Hbody.
  { unfold Etl.fact_body. destruct (negb _).
    - intros w r w' Hw. apply (spends_bind 0 0) in Hw;
        [unfold sends_at_most in *; lia | done | intros _; apply spends_ret].
    - apply (spends_bind 0 5).
      { intros w r w'. rewrite normalize_run. intros [= _ <-].
        unfold sends_at_most. simpl. lia. }
      intros region. apply (spends_bind 4 1).
      { unfold Etl.resolve_keys.
        apply (spends_bind 1 3); [by apply spends_lookup_in | intros pk].
        apply (spends_bind 1 2); [by apply spends_lookup_in | intros dk].
        apply (spends_bind 1 1); [by apply spends_lookup_in | intros ck].
        apply (spends_bind 1 0); [by apply spends_lookup_in | intros rk].
        apply spends_ret. }
      intros fact_row. destruct (has_none fact_row).
      + intros w r w' Hw. apply (spends_bind 0 0) in Hw;
          [unfold sends_at_most in *; lia | done | intros _; apply spends_ret].
      + apply (spends_bind 1 0).
        { unfold Etl.insert_fact. apply (spends_bind 1 0); [apply spends_execute |].
          intros _. by apply spends_modify. }
        intros _. apply (spends_bind 0 0); [by apply spends_modify |].
        intros _. apply spends_ret. }
  intros w r w'. unfold Etl.process_row, try_except.
  destruct ((fact_body row ≫= _) w) as [[o|e] w1] eqn:Hb.
  - intros [= _ <-]. revert Hb.
    apply (spends_bind 5 0); [done | intros how; apply spends_ret].
  - intros Hh. apply (spends_bind 5 0) in Hb; [| done | intros how; apply spends_ret].
    apply (spends_bind 0 0) in Hh; [| done | intros _; apply spends_ret].
    unfold sends_at_most in *. lia.
Qed.

(** X14: a transaction costs at most five statements, four lookups and
    one insert, so a batch costs at most five times its length; and the
    count of statements never goes down. *)
Theorem fact_loop_sends_at_most_five_per_row sales_df w :
  sends_at_most (5 * length sales_df) w (load_facts sales_df w).2.
Proof.
  revert w. induction sales_df as [|row rest IH]; intros w.
  - unfold sends_at_most. simpl. lia.
  - rewrite load_facts_cons.
    destruct (process_row row w) as [r w1] eqn:Hrow. simpl.
    apply spends_process_row in Hrow. specialize (IH w1).
    unfold sends_at_most in *. simpl length. lia.
Qed.
End loop_whole.

(** ** What the fact loop admits *)

Section loop_admission.
Context {F : Type} `{Pandas F}.
Variable db_fails : nat → bool.
Variable region_mapping : PyDict.t string.
Variable valid_products : gset string.

Import Etl Loader.

Implicit Types (w : World F) (row : Sale.t F) (sales_df : list (Sale.t F)).

Abbreviation lookup_in := (lookup_in db_fails).
Abbreviation resolve_keys := (resolve_keys db_fails).
Abbreviation process_row := (process_row db_fails region_mapping valid_products).
Abbreviation load_facts := (load_facts db_fails region_mapping valid_products).
Abbreviation outcomes := (outcomes db_fails region_mapping valid_products).
Abbreviation admitted_fact := (admitted_fact (F:=F) region_mapping valid_products).
Abbreviation expected_exit := (expected_exit (F:=F) region_mapping valid_products).
Abbreviation same_tables := (same_tables (F:=F)).
Abbreviation wf_kept := (wf_kept (F:=F)).

#[local] Existing Instance table_same_preorder.
#[local] Existing Instance cache_kept_preorder.
#[local] Existing Instance same_tables_preorder.
#[local] Existing Instance wf_kept_preorder.
#[local] Existing Instance caches_kept_preorder.
#[local] Existing Instance same_counts_preorder.

Lemma has_none_all_Some pk dk ck rk :
  has_none (MkKeyRefs (Some pk) (Some dk) (Some ck) (Some rk)) = false.
Proof. reflexivity. Qed.

Lemma admitted_fact_same_tables w w' row :
  same_tables w w' → admitted_fact w' row = admitted_fact w row.
Proof.
  intros ([Hp _] & [Hd _] & [Hc _] & [Hr _]). unfold Loader.admitted_fact.
  by rewrite Hp, Hd, Hc, Hr.
Qed.

Section no_fault.
Hypothesis no_fault : ∀ n, db_fails n = false.

Lemma lookup_in_answer {K A} `{Countable K} (natkey : A → K) get put k w :
  Dim.wf natkey (get w) →
  (∀ n w0, get (set_statements n w0) = get w0) →
  ∃ w', lookup_in natkey get put k w
        = (Return (Dim.select natkey (Dim.rows (get w)) k), w').
Proof.
  intros Hwf Hget. unfold Etl.lookup_in.
  destruct (Dim.cached (get w) k).
  - pose proof (lookup_answer natkey (get w) k Hwf) as Ha.
    destruct (Dim.lookup natkey (get w) k) as [keyval d]. simpl in Ha. subst.
    by eexists.
  - unfold mbind, M_bind, bind, execute. rewrite no_fault. rewrite Hget.
    pose proof (lookup_answer natkey (get w) k Hwf) as Ha.
    destruct (Dim.lookup natkey (get w) k) as [keyval d]. simpl in Ha. subst.
    by eexists.
Qed.

Lemma resolve_keys_answer row region w :
  dims_wf w →
  ∃ w', resolve_keys row region w =
        (Return (MkKeyRefs
           (Dim.select Product.product_id (Dim.rows (dim_product w)) (Sale.product_id row))
           (Dim.select DateRow.full_date (Dim.rows (dim_date w)) (Sale.order_date row))
           (Dim.select Customer.customer_id (Dim.rows (dim_customer w)) (Sale.customer_id row))
           (Dim.select region_natkey (Dim.rows (dim_region w)) (region_lookup_key region))),
         w').
Proof.
  intros Hwf. unfold Etl.resolve_keys.
  assert (∀ {K A} `{Countable K} (natkey : A → K) get put k w0 r w1,
            (∀ w k, same_tables w (put (Dim.lookup natkey (get w) k).2 w)) →
            (∀ w k, wf_kept w (put (Dim.lookup natkey (get w) k).2 w)) →
            lookup_in natkey get put k w0 = (r, w1) →
            same_tables w0 w1 ∧ wf_kept w0 w1) as Hstep.
  { intros K A ? ? natkey get put k w0 r w1 Hst Hwk Hl. split.
    - eapply (preserves_lookup_in db_fails same_tables); [| | exact Hl]; [| done].
      intros w2. split; [| split; [| split]]; reflexivity.
    - eapply (preserves_lookup_in db_fails wf_kept); [| | exact Hl]; [| done].
      intros w2 Hw2. exact Hw2. }
  assert (∀ w0 k, same_tables w0 (set_dim_product
            (Dim.lookup Product.product_id (dim_product w0) k).2 w0)) as HstP.
  { intros. split; [| split; [| split]]; try reflexivity. apply lookup_table_same. }
  assert (∀ w0 k, same_tables w0 (set_dim_date
            (Dim.lookup DateRow.full_date (dim_date w0) k).2 w0)) as HstD.
  { intros. split; [| split; [| split]]; try reflexivity. apply lookup_table_same. }
  assert (∀ w0 k, same_tables w0 (set_dim_customer
            (Dim.lookup Customer.customer_id (dim_customer w0) k).2 w0)) as HstC.
  { intros. split; [| split; [| split]]; try reflexivity. apply lookup_table_same. }
  assert (∀ w0 k, wf_kept w0 (set_dim_product
            (Dim.lookup Product.product_id (dim_product w0) k).2 w0)) as HwkP.
  { intros w0 k (? & ? & ? & ?). split; [| split; [| split]]; try done. by apply lookup_wf. }
  assert (∀ w0 k, wf_kept w0 (set_dim_date
            (Dim.lookup DateRow.full_date (dim_date w0) k).2 w0)) as HwkD.
  { intros w0 k (? & ? & ? & ?). split; [| split; [| split]]; try done. by apply lookup_wf. }
  assert (∀ w0 k, wf_kept w0 (set_dim_customer
            (Dim.lookup Customer.customer_id (dim_customer w0) k).2 w0)) as HwkC.
  { intros w0 k (? & ? & ? & ?). split; [| split; [| split]]; try done. by apply lookup_wf. }
  unfold mbind, M_bind, bind.
  destruct (lookup_in_answer Product.product_id dim_product set_dim_product
              (Sale.product_id row) w) as [w1 H1]; [by destruct Hwf | done |].
  rewrite H1. destruct (Hstep _ _ _ _ _ _ _ _ _ _ _ (HstP) (HwkP) H1) as [Hs1 Hw1].
  specialize (Hw1 Hwf).
  destruct (lookup_in_answer DateRow.full_date dim_date set_dim_date
              (Sale.order_date row) w1) as [w2 H2]; [by destruct Hw1 as (? & ? & ?) | done |].
  rewrite H2. destruct (Hstep _ _ _ _ _ _ _ _ _ _ _ (HstD) (HwkD) H2) as [Hs2 Hw2].
  specialize (Hw2 Hw1).
  destruct (lookup_in_answer Customer.customer_id dim_customer set_dim_customer
              (Sale.customer_id row) w2) as [w3 H3]; [by destruct Hw2 as (? & ? & ? & ?) | done |].
  rewrite H3. destruct (Hstep _ _ _ _ _ _ _ _ _ _ _ (HstC) (HwkC) H3) as [Hs3 Hw3].
  specialize (Hw3 Hw2).
  unfold Etl.lookup_region. fold (region_lookup_key region).
  destruct (lookup_in_answer region_natkey dim_region set_dim_region
              (region_lookup_key region) w3) as [w4 H4]; [by destruct Hw3 as (? & ? & ? & ?) | done |].
  rewrite H4. exists w4.
  destruct Hs1 as (_ & [Hd1 _] & [Hc1 _] & [Hr1 _]).
  destruct Hs2 as (_ & _ & [Hc2 _] & [Hr2 _]).
  destruct Hs3 as (_ & _ & _ & [Hr3 _]).
  by rewrite Hd1, Hc2, Hc1, Hr3, Hr2, Hr1.
Qed.

Lemma omap_pointwise {A B} (f g : A → option B) (l : list A) :
  (∀ x, f x = g x) → omap f l = omap g l.
Proof.
  intros Hfg. apply list_omap_ext. induction l as [|x l IH]; constructor; auto.
Qed.

Lemma process_row_state row w :
  (load_facts [row] w).2 = (process_row row w).2.
Proof. by rewrite load_facts_cons. Qed.

(** One turn of the loop when the database refuses nothing. *)
Lemma process_row_admits row w :
  dims_wf w →
  ∃ w', process_row row w = (Return (Exited (expected_exit w row)), w') ∧
        fact_sales w' = fact_sales w ++ option_list (admitted_fact w row) ∧
        same_tables w w' ∧ dims_wf w'.
Proof.
  intros Hwf.
  assert (same_tables w (process_row row w).2 ∧ dims_wf (process_row row w).2) as [Hst Hwf'].
  { rewrite <- process_row_state. split.
    - destruct (load_facts [row] w) as [r w'] eqn:Hl. simpl.
      by apply (load_facts_same_tables db_fails region_mapping valid_products [row] w r w').
    - destruct (load_facts [row] w) as [r w'] eqn:Hl. simpl.
      by apply (load_facts_wf_kept db_fails region_mapping valid_products [row] w r w'). }
  enough (∃ w', process_row row w = (Return (Exited (expected_exit w row)), w') ∧
                fact_sales w' = fact_sales w ++ option_list (admitted_fact w row))
    as (w' & Hrow & Hfs).
  { exists w'. rewrite Hrow in Hst, Hwf'. simpl in Hst, Hwf'.
    split; [done |]. split; [done |]. split; [exact Hst | exact Hwf']. }
  clear Hst Hwf'.
  unfold expected_exit, Loader.expected_exit, Loader.admitted_fact.
  unfold Etl.process_row, try_except, mbind at 1, M_bind at 1, bind at 1.
  case_bool_decide as Hp.
  - rewrite fact_body_valid by done. cbv zeta.
    set (region := (Region.normalize_region_name (Sale.region row) region_mapping).1).
    set (w1 := set_stdout _ w).
    destruct (resolve_keys_answer row region w1) as [w2 Hres]; [done |].
    rewrite Hres.
    apply resolve_keys_same_counts in Hres as (Hfs & _). simpl in Hfs.
    change (dim_product w1) with (dim_product w).
    change (dim_date w1) with (dim_date w).
    change (dim_customer w1) with (dim_customer w).
    change (dim_region w1) with (dim_region w).
    destruct (Dim.select Product.product_id _ _) as [pk|]; simpl;
      [| eexists; split; [done |]; simpl; by rewrite Hfs, app_nil_r].
    destruct (Dim.select DateRow.full_date _ _) as [dk|]; simpl;
      [| eexists; split; [done |]; simpl; by rewrite Hfs, app_nil_r].
    destruct (Dim.select Customer.customer_id _ _) as [ck|]; simpl;
      [| eexists; split; [done |]; simpl; by rewrite Hfs, app_nil_r].
    destruct (Dim.select region_natkey _ _) as [rk|]; simpl;
      [| eexists; split; [done |]; simpl; by rewrite Hfs, app_nil_r].
    unfold execute. rewrite no_fault. simpl.
    eexists. split; [done |]. simpl. by rewrite Hfs.
  - rewrite fact_body_invalid by done. simpl.
    eexists. split; [done |]. simpl. by rewrite app_nil_r.
Qed.

Lemma load_facts_admits sales_df w :
  dims_wf w →
  fact_sales (load_facts sales_df w).2 = fact_sales w ++ omap (admitted_fact w) sales_df ∧
  outcomes sales_df w = map (fun row => Exited (expected_exit w row)) sales_df ∧
  dims_wf (load_facts sales_df w).2.
Proof.
  revert w. induction sales_df as [|row rest IH]; intros w Hwf.
  - simpl. by rewrite app_nil_r.
  - rewrite load_facts_cons, outcomes_cons.
    destruct (process_row_admits row w Hwf) as (w1 & Hrow & Hfs & Hst & Hwf1).
    rewrite Hrow. simpl fst. simpl snd.
    destruct (IH w1 Hwf1) as (Hfs' & Hos & Hwf').
    split; [| split; [| done]].
    + rewrite Hfs', Hfs, <- app_assoc. f_equal.
      rewrite (omap_pointwise (admitted_fact w1) (admitted_fact w))
        by (intros row0; by apply admitted_fact_same_tables).
      change (omap (admitted_fact w) (row :: rest))
        with (match admitted_fact w row with
              | Some y => y :: omap (admitted_fact w) rest
              | None => omap (admitted_fact w) rest
              end).
      by destruct (admitted_fact w row).
    + rewrite Hos. simpl. f_equal. apply map_ext. intros row0.
      unfold expected_exit, Loader.expected_exit.
      by rewrite (admitted_fact_same_tables w w1).
Qed.

(** X15: when the database refuses nothing and the dimensions are in a
    well-formed state, the fact loop loads exactly the transactions whose
    product is valid and whose four keys the dimension tables hold, in the
    order of the batch, each with those keys and its own measures; no
    transaction is caught, and the others are rejected for their product
    or for an unresolved reference. *)
Theorem fact_loop_admits_resolved_rows sales_df w :
  dims_wf w →
  fact_sales (load_facts sales_df w).2 = fact_sales w ++ omap (admitted_fact w) sales_df ∧
  outcomes sales_df w = map (fun row => Exited (expected_exit w row)) sales_df.
Proof.
  intros Hwf. destruct (load_facts_admits sales_df w Hwf) as (Hfs & Hos & _). done.
Qed.

(** X16: the fact loop is not idempotent. Run a second time on the same
    batch, it finds the same keys and appends the same facts once more. *)
Theorem fact_loop_rerun_duplicates_facts sales_df w :
  dims_wf w →
  let new := omap (admitted_fact w) sales_df in
  fact_sales (load_facts sales_df w).2 = fact_sales w ++ new ∧
  fact_sales (load_facts sales_df (load_facts sales_df w).2).2
  = fact_sales w ++ new ++ new.
Proof.
  intros Hwf new.
  destruct (load_facts_admits sales_df w Hwf) as (Hfs & _ & Hwf1).
  split; [done |].
  destruct (load_facts_admits sales_df _ Hwf1) as (Hfs' & _ & _).
  rewrite Hfs', Hfs, <- app_assoc. do 2 f_equal.
  apply omap_pointwise. intros row. apply admitted_fact_same_tables.
  destruct (load_facts sales_df w) as [r w'] eqn:Hl. simpl.
  by apply (load_facts_same_tables db_fails region_mapping valid_products sales_df w r w').
Qed.
End no_fault.
End loop_admission.

(** ** References that the run itself loaded *)

Section run_references.
Context {F : Type} `{Pandas F}.
Variable db_fails : nat → bool.
Variable region_mapping : PyDict.t string.

Import Etl Loader.

Implicit Types (w : World F) (row : Sale.t F).

#[local] Existing Instance table_same_preorder.
#[local] Existing Instance cache_kept_preorder.
#[local] Existing Instance caches_kept_preorder.

Lemma elem_of_valid_products_of (product_df : list (Product.t F)) product_id :
  product_id ∈ valid_products_of product_df ↔
  product_id ∈ map Product.product_id product_df.
Proof. unfold valid_products_of. by rewrite elem_of_list_to_set, elem_of_unique. Qed.

(** A key that is in the cache is answered from it: no statement is sent,
    so the lookup cannot raise, and the state is left as it is. *)
Lemma lookup_in_cached {K A} `{Countable K} (natkey : A → K) get put k w keyval :
  (∀ w0, put (get w0) w0 = w0) →
  Dim.cache (get w) !! k = Some keyval →
  Etl.lookup_in db_fails natkey get put k w = (Return keyval, w).
Proof.
  intros Hput Hc. unfold Etl.lookup_in, Dim.cached, Dim.lookup.
  rewrite Hc. rewrite bool_decide_eq_true_2 by eauto. by rewrite Hput.
Qed.

(** X17: a transaction whose product, date, customer and normalised
    region are all in the frames that this run loaded into the dimensions
    finds its four keys in the caches, at any point of the fact loop and
    whatever tables the run started from: it sends one statement only, the
    insert of the fact, and it is loaded unless the database refuses that
    statement, in which case it is caught and skipped. *)
Theorem known_references_cost_one_statement
    tables (product_df : list (Product.t F)) date_df customer_df region_df
    (pre : list (Sale.t F)) row region_name :
  let valid_products := valid_products_of product_df in
  let w := load_dimensions tables product_df date_df customer_df region_df in
  let w1 := (load_facts db_fails region_mapping valid_products pre w).2 in
  Sale.product_id row ∈ map Product.product_id product_df →
  Sale.order_date row ∈ map DateRow.full_date date_df →
  Sale.customer_id row ∈ map Customer.customer_id customer_df →
  (Region.normalize_region_name (Sale.region row) region_mapping).1 = PStr region_name →
  region_name ∈ map RegionRow.region_name region_df →
  ∃ pk dk ck rk w',
    process_row db_fails region_mapping valid_products row w1 =
      (Return (if db_fails (statements w1)
               then Caught (DatabaseError (statements w1))
               else Exited ExitLoaded), w') ∧
    statements w' = S (statements w1) ∧
    fact_sales w' = fact_sales w1 ++
      (if db_fails (statements w1) then []
       else [with_measures (MkKeyRefs (Some pk) (Some dk) (Some ck) (Some rk)) row]).
Proof.
  intros valid_products w w1 Hp Hd Hc Hnorm Hr.
  assert (caches_kept w w1) as (Hkp & Hkd & Hkc & Hkr).
  { unfold w1. destruct (load_facts _ _ _ pre w) as [r w'] eqn:Hl.
    by apply load_facts_caches_kept in Hl. }
  apply list_elem_of_fmap in Hp as (p & Hpid & Hp).
  apply list_elem_of_fmap in Hd as (d & Hdid & Hd).
  apply list_elem_of_fmap in Hc as (c & Hcid & Hc).
  apply list_elem_of_fmap in Hr as (r & Hrid & Hr).
  destruct (load_resolved Product.product_id Dim.NotTruthy
              (Dim.connect (t_product tables)) product_df p Hp) as [pk Hpk].
  destruct (load_resolved DateRow.full_date Dim.NotTruthy
              (Dim.connect (t_date tables)) date_df d Hd) as [dk Hdk].
  destruct (load_resolved Customer.customer_id Dim.NotTruthy
              (Dim.connect (t_customer tables)) customer_df c Hc) as [ck Hck].
  destruct (load_resolved region_natkey Dim.IsNone
              (Dim.connect (t_region tables)) region_df r Hr) as [rk Hrk].
  rewrite <- Hpid in Hpk. rewrite <- Hdid in Hdk. rewrite <- Hcid in Hck.
  unfold region_natkey in Hrk. rewrite <- Hrid in Hrk.
  apply Hkp in Hpk. apply Hkd in Hdk. apply Hkc in Hck. apply Hkr in Hrk.
  exists pk, dk, ck, rk.
  unfold Etl.process_row, try_except, mbind at 1, M_bind at 1, bind at 1.
  rewrite fact_body_valid
    by (apply elem_of_valid_products_of, list_elem_of_fmap; by exists p).
  cbv zeta. rewrite Hnorm.
  set (w2 := set_stdout _ w1).
  assert (Etl.resolve_keys db_fails row (PStr region_name) w2
          = (Return (MkKeyRefs (Some pk) (Some dk) (Some ck) (Some rk)), w2)) as ->.
  { unfold Etl.resolve_keys, lookup_region, mbind, M_bind, bind.
    rewrite (lookup_in_cached _ _ _ _ w2 (Some pk)); [| by intros [] | done].
    rewrite (lookup_in_cached _ _ _ _ w2 (Some dk)); [| by intros [] | done].
    rewrite (lookup_in_cached _ _ _ _ w2 (Some ck)); [| by intros [] | done].
    rewrite (lookup_in_cached _ _ _ _ w2 (Some rk)); [| by intros [] | done].
    done. }
  rewrite has_none_all_Some. unfold execute.
  change (statements w2) with (statements w1).
  destruct (db_fails (statements w1)); simpl; eexists; by rewrite ?app_nil_r.
Qed.
End run_references.

(** ** The pipeline, end to end *)

Section pipeline.
Context {F : Type} `{Pandas F}.
Variable db_fails : nat → bool.
Hypothesis no_fault : ∀ n, db_fails n = false.

Import Etl Loader.

Implicit Types (w : World F) (row : Sale.t F) (ex : Extract F).

Lemma connect_nil_wf {K A} `{Countable K} (natkey : A → K) :
  Dim.wf natkey (Dim.connect []).
Proof. apply connect_wf; constructor. Qed.

Lemma load_connect_nil_resolves {K A} `{Countable K} (natkey : A → K) test l k :
  is_Some (Dim.select natkey (Dim.rows (Dim.load natkey test (Dim.connect []) l)) k) ↔
  k ∈ map natkey l.
Proof.
  rewrite (load_resolves natkey test (Dim.connect []) l k (connect_nil_wf natkey)). simpl. split; [intros [[? [=]] | ?]; done | by right].
Qed.

Lemma map_omap_filter {A B C} (f : A → option B) (P : A → Prop) `{∀ x, Decision (P x)}
    (g : B → C) (h : A → C) (l : list A) :
  (∀ x, x ∈ l → (is_Some (f x) ↔ P x)) →
  (∀ x y, f x = Some y → g y = h x) →
  map g (omap f l) = map h (filter P l).
Proof.
  intros HP Hgh. induction l as [|x l IH]; [done |].
  rewrite filter_cons.
  change (omap f (x :: l))
    with (match f x with Some y => y :: omap f l | None => omap f l end).
  assert (∀ x0, x0 ∈ l → is_Some (f x0) ↔ P x0) as HP'
    by (intros x0 Hx0; apply HP; by apply list_elem_of_further).
  specialize (HP x (list_elem_of_here _ _)).
  destruct (f x) as [y|] eqn:Hfx.
  - rewrite decide_True by (apply HP; eauto). simpl. rewrite (Hgh x y Hfx). f_equal. auto.
  - rewrite decide_False by (intros HPx; apply HP in HPx; by destruct HPx). auto.
Qed.

(** X18: a run on empty dimension tables, with a database that refuses
    nothing, loads exactly the transactions whose product is in the
    product extract, whose customer is in the customer extract and whose
    region is normalised to a name of the reference data, in the order of
    the sales extract and with their own measures; it counts them as
    facts and every other transaction as skipped. *)
Theorem pipeline_loads_known_references ex facts sales_df :
  transform_sales_data (sales ex) = Some sales_df →
  ∃ w new,
    run_etl_pipeline db_fails (MkTables [] [] [] [] facts) ex = Some w ∧
    fact_sales w = facts ++ new ∧
    map (fun fact_row => (FactRow.quantity fact_row, FactRow.unit_price fact_row,
                          FactRow.discount fact_row, FactRow.total_amount fact_row)) new
    = map (fun row => (Sale.quantity row, Sale.unit_price row,
                       Sale.discount row, Sale.total_amount row))
          (filter (references_known ex) sales_df) ∧
    fact_count w = length (filter (references_known ex) sales_df) ∧
    (fact_count w + skipped_records w = length sales_df)%nat.
Proof.
  intros Htr. unfold run_etl_pipeline. rewrite Htr.
  destruct (extract_region_data (regions ex)) as [region_df mapping] eqn:Hreg. simpl.
  set (vp := valid_products_of (products ex)).
  set (w0 := load_dimensions _ _ _ _ _).
  assert (dims_wf w0) as Hwf.
  { split; [| split; [| split]]; simpl; apply load_wf, connect_nil_wf. }
  destruct (load_facts_admits db_fails mapping vp no_fault sales_df w0 Hwf)
    as (Hfs & _ & _).
  destruct (load_facts_returns db_fails mapping vp sales_df w0) as [w1 Hw1].
  destruct (load_facts_counts db_fails mapping vp sales_df w0) as (Hlen & Hfc & Hsk & Hlf).
  rewrite Hw1 in Hfs, Hfc, Hsk, Hlf. simpl in Hfs, Hfc, Hsk, Hlf.
  unfold mbind, M_bind, bind. rewrite Hw1. simpl.
  eexists _, (omap (admitted_fact mapping vp w0) sales_df).
  split; [done |]. simpl. split; [done |].
  assert (map (fun fact_row => (FactRow.quantity fact_row, FactRow.unit_price fact_row,
                          FactRow.discount fact_row, FactRow.total_amount fact_row))
              (omap (admitted_fact mapping vp w0) sales_df)
          = map (fun row => (Sale.quantity row, Sale.unit_price row,
                       Sale.discount row, Sale.total_amount row))
          (filter (references_known ex) sales_df)) as Hmeasures.
  { apply map_omap_filter.
    - intros row Hrow. unfold Loader.admitted_fact, references_known. rewrite Hreg. simpl.
      pose proof (load_connect_nil_resolves Product.product_id Dim.NotTruthy
                    (products ex) (Sale.product_id row)) as HP.
      pose proof (load_connect_nil_resolves DateRow.full_date Dim.NotTruthy
                    (create_date_dimension sales_df) (Sale.order_date row)) as HD.
      pose proof (load_connect_nil_resolves Customer.customer_id Dim.NotTruthy
                    (transform_customer_data (customers ex)) (Sale.customer_id row)) as HC.
      pose proof (load_connect_nil_resolves region_natkey Dim.IsNone region_df
                    (region_lookup_key
                       (Region.normalize_region_name (Sale.region row) mapping).1)) as HR.
      rewrite transform_customer_data_ids in HC.
      rewrite create_date_dimension_dates, elem_of_unique in HD.
      assert (Sale.order_date row ∈ map Sale.order_date sales_df) as Hdate
        by by apply list_elem_of_fmap_2.
      apply HD in Hdate.
      unfold vp. case_bool_decide as Hvp; rewrite elem_of_valid_products_of in Hvp.
      + unfold load_products, load_dates, load_customers, load_regions in *.
        destruct (Dim.select Product.product_id _ _) as [pk|];
          [| apply HP in Hvp; by destruct Hvp].
        destruct Hdate as [dk ->]. simpl.
        destruct (Dim.select Customer.customer_id _ _) as [ck|]; simpl.
        * destruct (Dim.select region_natkey _ _) as [rk|]; simpl.
          -- split; [intros _ | done]. split; [done |]. split; [by apply HC | by apply HR].
          -- split; [by intros [? [=]] |]. intros (_ & _ & Hr). apply HR in Hr. by destruct Hr.
        * split; [by intros [? [=]] |]. intros (_ & Hc & _). apply HC in Hc. by destruct Hc.
      + split; [by intros [? [=]] | by intros [? _]].
    - intros row fact_row. unfold Loader.admitted_fact.
      case_bool_decide; [| done].
      destruct (Dim.select Product.product_id _ _); [| done].
      destruct (Dim.select DateRow.full_date _ _); [| done].
      destruct (Dim.select Customer.customer_id _ _); [| done].
      destruct (Dim.select region_natkey _ _); [| done].
      simpl. by intros [= <-]. }
  split; [exact Hmeasures |].
  assert (length (omap (admitted_fact mapping vp w0) sales_df)
          = length (filter (references_known ex) sales_df)) as Hcount.
  { apply (f_equal length) in Hmeasures. by rewrite !length_map in Hmeasures. }
  assert (count_exits ExitLoaded
            (outcomes db_fails mapping vp sales_df w0)
          = length (omap (admitted_fact mapping vp w0) sales_df)) as Hloaded.
  { rewrite Hfs, length_app in Hlf. simpl in Hlf. lia. }
  simpl in Hfc, Hsk. split; [lia |].
  pose proof (outcome_counts_total (outcomes db_fails mapping vp sales_df w0)). lia.
Qed.
End pipeline.

(** ** Extraction *)

Section frames.
Context {C : Type}.
Implicit Types (df : Frame.t C) (col old new : string) (cols : list string).

Lemma column_is_Some df col : is_Some (Frame.column df col) ↔ col ∈ Frame.columns df.
Proof.
  unfold Frame.columns. induction df as [|[name cells] df IH]; simpl.
  - rewrite elem_of_nil. split; [by intros [? ?] | done].
  - rewrite elem_of_cons. case_decide; [naive_solver |]. rewrite IH. naive_solver.
Qed.

Lemma column_None df col : Frame.column df col = None ↔ col ∉ Frame.columns df.
Proof. rewrite <- column_is_Some, eq_None_not_Some. done. Qed.

Lemma missing_nil required df :
  Frame.missing required df = [] ↔ ∀ col, col ∈ required → col ∈ Frame.columns df.
Proof.
  unfold Frame.missing. induction required as [|c required IH]; simpl.
  - split; [by intros _ col ?%elem_of_nil | done].
  - rewrite filter_cons. destruct (decide (c ∉ Frame.columns df)) as [Hc | Hc].
    + split; [done |]. intros Hall. destruct Hc. apply Hall, list_elem_of_here.
    + rewrite IH. apply dec_stable in Hc. split.
      * intros Hall col [-> | ?]%elem_of_cons; auto.
      * intros Hall col ?. apply Hall. by apply list_elem_of_further.
Qed.

Lemma columns_rename old new df :
  Frame.columns (Frame.rename old new df)
  = map (fun name => if decide (name = old) then new else name) (Frame.columns df).
Proof.
  unfold Frame.columns, Frame.rename. induction df as [|[name cells] df IH]; [done |].
  simpl. f_equal. apply IH.
Qed.

Lemma elem_of_columns_rename old new df col :
  col ∈ Frame.columns (Frame.rename old new df) ↔
  (col = new ∧ old ∈ Frame.columns df) ∨ (col ≠ old ∧ col ∈ Frame.columns df).
Proof.
  rewrite columns_rename. split.
  - intros (name & -> & Hin)%list_elem_of_fmap. case_decide; subst; auto.
  - intros [[-> Hin] | [Hne Hin]]; apply list_elem_of_fmap.
    + exists old. by rewrite decide_True.
    + exists col. by rewrite decide_False.
Qed.

(** The cells of a renamed frame, when the new name was free. *)
Lemma column_rename old new df col :
  new ∉ Frame.columns df → old ≠ new →
  Frame.column (Frame.rename old new df) col =
  if decide (col = new) then Frame.column df old
  else if decide (col = old) then None else Frame.column df col.
Proof.
  unfold Frame.columns, Frame.rename. intros Hnew Hne.
  induction df as [|[name cells] df IH]; simpl.
  - by repeat case_decide.
  - simpl in Hnew. rewrite not_elem_of_cons in Hnew. destruct Hnew as [Hn Hnew].
    rewrite (IH Hnew). repeat (case_decide; simpl; subst); congruence.
Qed.

Lemma columns_select df cols :
  (∀ col, col ∈ cols → col ∈ Frame.columns df) →
  Frame.columns (Frame.select df cols) = cols.
Proof.
  unfold Frame.select, Frame.columns at 2. induction cols as [|c cols IH]; [done |].
  intros Hall.
  destruct (proj2 (column_is_Some df c)) as [cells Hc]; [apply Hall, list_elem_of_here |].
  change (omap ?f (c :: cols))
    with (match f c with Some y => y :: omap f cols | None => omap f cols end).
  cbv beta.
  rewrite Hc. simpl. f_equal. apply IH. intros col ?. apply Hall. by apply list_elem_of_further.
Qed.

Lemma column_select df cols col :
  col ∈ cols → Frame.column (Frame.select df cols) col = Frame.column df col.
Proof.
  unfold Frame.select. induction cols as [|c cols IH]; [by intros ?%elem_of_nil |].
  intros Hin.
  change (omap ?f (c :: cols))
    with (match f c with Some y => y :: omap f cols | None => omap f cols end).
  cbv beta.
  cbv beta. destruct (decide (c = col)) as [-> | Hne].
  - destruct (Frame.column df col) as [cells|] eqn:Hc; simpl.
    + by rewrite decide_True.
    + destruct (decide (col ∈ cols)) as [Hin' | Hin']; [by rewrite IH |].
      apply column_None. unfold Frame.columns.
      intros ([name cells] & -> & Hin'')%list_elem_of_fmap.
      apply list_elem_of_omap in Hin'' as (c' & Hc' & Heq). simpl in *.
      destruct (Frame.column df c'); [| done]. simpl in Heq. by injection Heq as -> ->.
  - apply elem_of_cons in Hin as [-> | Hin]; [done |].
    destruct (Frame.column df c) as [cells|]; simpl; [| by apply IH].
    rewrite decide_False by done. by apply IH.
Qed.

Lemma column_map_column c (f : C → C) df col :
  Frame.column (Frame.map_column c f df) col =
  (if decide (col = c) then map f else id) <$> Frame.column df col.
Proof.
  unfold Frame.map_column. induction df as [|[name cells] df IH]; simpl; [done |].
  destruct (decide (name = col)) as [Hn | Hn]; [| apply IH].
  subst. simpl. by destruct (decide (col = c)).
Qed.

Lemma columns_map_column c (f : C → C) df :
  Frame.columns (Frame.map_column c f df) = Frame.columns df.
Proof.
  unfold Frame.columns, Frame.map_column. induction df as [|[name cells] df IH]; [done |].
  simpl. f_equal. apply IH.
Qed.
End frames.

Section extraction.
Context {C : Type}.
Implicit Types (df out : Frame.t C) (col : string).

Import Extract.

Lemma filter_iff_in {A} (P Q : A → Prop) `{∀ x, Decision (P x)} `{∀ x, Decision (Q x)}
    (l : list A) :
  (∀ x, x ∈ l → (P x ↔ Q x)) → filter P l = filter Q l.
Proof.
  induction l as [|x l IH]; [done |]. intros HPQ. rewrite !filter_cons.
  rewrite IH by (intros y Hy; apply HPQ; by apply list_elem_of_further).
  specialize (HPQ x (list_elem_of_here _ _)).
  destruct (decide (P x)), (decide (Q x)); naive_solver.
Qed.

(** The frame on which [extract_sales_data] checks the columns. *)
Lemma sales_columns_after_rename df col :
  col ∈ sales_required_columns →
  let renamed := Frame.has_column df "sale_id" && negb (Frame.has_column df "order_id") in
  col ∈ Frame.columns (if renamed then Frame.rename "sale_id" "order_id" df else df) ↔
  col ∈ Frame.columns df ∨ (col = "order_id" ∧ "sale_id" ∈ Frame.columns df).
Proof.
  intros Hreq. unfold Frame.has_column. simpl.
  assert (col ≠ "sale_id") as Hne.
  { intros ->. revert Hreq. unfold sales_required_columns. set_solver. }
  case_bool_decide as Hs; case_bool_decide as Ho; simpl;
    rewrite ?elem_of_columns_rename; naive_solver.
Qed.

(** X19: [extract_sales_data] returns a frame exactly when each of the
    eight required columns is in the frame read, a column [sale_id]
    standing for [order_id] when there is no [order_id]; the frame
    returned has the eight columns and no other, in the required order.
    Otherwise it raises [ValueError] with the missing columns, in the
    required order, in its message. *)
Theorem extract_sales_data_checks_columns df :
  match (extract_sales_data df).1 with
  | Extracted out =>
      Frame.columns out = sales_required_columns ∧
      ∀ col, col ∈ sales_required_columns →
             col ∈ Frame.columns df ∨ (col = "order_id" ∧ "sale_id" ∈ Frame.columns df)
  | ValueError message =>
      let missing_columns :=
        filter (fun col => (col ∉ Frame.columns df) ∧
                           ¬ (col = "order_id" ∧ "sale_id" ∈ Frame.columns df))
               sales_required_columns in
      missing_columns ≠ [] ∧
      message = "Colonnes requises manquantes dans les donnees de vente: "
                +:+ join missing_columns
  end.
Proof.
  unfold extract_sales_data.
  set (renamed := Frame.has_column df "sale_id" && negb (Frame.has_column df "order_id")).
  set (df1 := if renamed then Frame.rename "sale_id" "order_id" df else df).
  assert (Frame.missing sales_required_columns df1
          = filter (fun col => (col ∉ Frame.columns df) ∧
                               ¬ (col = "order_id" ∧ "sale_id" ∈ Frame.columns df))
                   sales_required_columns) as Hmissing.
  { unfold Frame.missing. apply filter_iff_in. intros col Hcol.
    pose proof (sales_columns_after_rename df col Hcol) as Hiff. simpl in Hiff.
    fold renamed df1 in Hiff. rewrite Hiff. tauto. }
  destruct (Frame.missing sales_required_columns df1) as [|c missing] eqn:Hm; cbn [fst].
  - pose proof (proj1 (missing_nil _ _) Hm) as Hall.
    split; [by apply columns_select |].
    intros col Hcol. pose proof (sales_columns_after_rename df col Hcol) as Hiff.
    simpl in Hiff. apply Hiff. by apply Hall.
  - rewrite <- Hmissing. done.
Qed.

(** X20: the cells of the frame that [extract_sales_data] returns are
    those of the frame read, column by column; the cells of [order_id]
    are those of [sale_id] when the frame read has no [order_id], and
    those of [order_id] itself when it has both. *)
Theorem extract_sales_data_keeps_cells df out :
  (extract_sales_data df).1 = Extracted out →
  ∀ col, col ∈ sales_required_columns →
    ∃ cells, Frame.column out col = Some cells ∧
      Frame.column df (if decide (col = "order_id" ∧ "order_id" ∉ Frame.columns df)
                       then "sale_id" else col) = Some cells.
Proof.
  unfold extract_sales_data.
  set (renamed := Frame.has_column df "sale_id" && negb (Frame.has_column df "order_id")).
  set (df1 := if renamed then Frame.rename "sale_id" "order_id" df else df).
  destruct (Frame.missing sales_required_columns df1) as [|c missing] eqn:Hm; [| done].
  cbn [fst]. intros Hout col Hcol.
  assert (out = Frame.select df1 sales_required_columns) as -> by (by injection Hout).
  pose proof (proj1 (missing_nil _ _) Hm col Hcol) as Hin.
  apply column_is_Some in Hin as [cells Hcells]. exists cells.
  rewrite column_select by done. split; [done |].
  assert (col ≠ "sale_id") as Hne.
  { intros ->. revert Hcol. unfold sales_required_columns. set_solver. }
  unfold df1, renamed, Frame.has_column in Hcells.
  case_bool_decide as Hs; case_bool_decide as Ho; simpl in Hcells.
  - case_decide as Hd; [| done]. destruct Hd as [-> Hd].
    by destruct Hd.
  - rewrite column_rename in Hcells by done.
    repeat case_decide; naive_solver.
  - case_decide as Hd; [| done]. destruct Hd as [-> Hd].
    assert ("order_id" ∈ Frame.columns df) by (apply column_is_Some; eauto). done.
  - case_decide as Hd; [| done]. destruct Hd as [-> Hd].
    assert ("order_id" ∈ Frame.columns df) by (apply column_is_Some; eauto). done.
Qed.
End extraction.

Section region_extraction.
Import Extract PyStr.

Implicit Types (df out : Frame.t string).

Lemma zip_with_map_l {A B D} (f : A → B → D) (g : A → A) (h : D → D) la lb :
  (∀ x y, f (g x) y = h (f x y)) →
  zip_with f (map g la) lb = map h (zip_with f la lb).
Proof.
  intros Hfg. revert lb. induction la as [|x la IH]; intros [|y lb]; simpl; try done.
  by rewrite Hfg, IH.
Qed.

Lemma map_region_name_rows names (others : list (string * string)) :
  length names = length others →
  map RegionRow.region_name
      (zip_with (fun name cc => RegionRow.Make name cc.1 cc.2) names others) = names.
Proof.
  revert others. induction names as [|n names IH]; intros [|o others]; simpl; try done.
  intros [= Hlen]. by rewrite IH.
Qed.

(** X21: [extract_region_data] accepts a column [region] for
    [region_name] when there is no [region_name]. The frame it returns
    has the region names stripped and the countries and continents as
    they were read; the mapping it stores is built from those names; and
    the rows of the frame are those that the loading loop and the
    normaliser are given. *)
Theorem extract_region_data_strips_names df out region_mapping :
  (extract_region_data df).1 = Extracted (out, region_mapping) →
  ∃ names countries continents,
    Frame.column df (if decide ("region_name" ∈ Frame.columns df)
                     then "region_name" else "region") = Some names ∧
    Frame.column df "country" = Some countries ∧
    Frame.column df "continent" = Some continents ∧
    Frame.column out "region_name" = Some (map strip names) ∧
    Frame.column out "country" = Some countries ∧
    Frame.column out "continent" = Some continents ∧
    region_mapping = Region.region_mapping names ∧
    let rows := zip_with (fun name cc => RegionRow.Make name cc.1 cc.2)
                         names (zip countries continents) in
    region_rows out = (Etl.extract_region_data rows).1 ∧
    (length names = length countries → length names = length continents →
     region_mapping = (Etl.extract_region_data rows).2).
Proof.
  unfold extract_region_data.
  set (renamed := Frame.has_column df "region" && negb (Frame.has_column df "region_name")).
  set (df1 := if renamed then Frame.rename "region" "region_name" df else df).
  destruct (Frame.missing region_required_columns df1) as [|c missing] eqn:Hm; [| done].
  cbn [fst]. intros Hout.
  assert (out = Frame.map_column "region_name" strip df1) as -> by (by injection Hout).
  assert (region_mapping
          = Region.region_mapping (default [] (Frame.column df1 "region_name"))) as ->
    by (by injection Hout).
  clear Hout.
  pose proof (proj1 (missing_nil _ _) Hm) as Hall.
  assert (∀ col, col ∈ region_required_columns → is_Some (Frame.column df1 col)) as Hcols
    by (intros col Hcol; by apply column_is_Some, Hall).
  destruct (Hcols "region_name") as [names Hn]; [unfold region_required_columns; set_solver |].
  destruct (Hcols "country") as [countries Hc]; [unfold region_required_columns; set_solver |].
  destruct (Hcols "continent") as [continents Hk]; [unfold region_required_columns; set_solver |].
  exists names, countries, continents.
  assert (Frame.column df (if decide ("region_name" ∈ Frame.columns df)
                           then "region_name" else "region") = Some names ∧
          Frame.column df "country" = Some countries ∧
          Frame.column df "continent" = Some continents) as (Hn' & Hc' & Hk').
  { unfold df1, renamed, Frame.has_column in Hn, Hc, Hk.
    case_bool_decide as Hr; case_bool_decide as Hrn; simpl in Hn, Hc, Hk.
    - by rewrite decide_True.
    - rewrite column_rename in Hn, Hc, Hk by done.
      rewrite decide_False by done. by repeat case_decide.
    - by rewrite decide_True.
    - rewrite decide_False by done.
      assert ("region_name" ∈ Frame.columns df) by (apply column_is_Some; eauto). done. }
  split; [done |]. split; [done |]. split; [done |].
  rewrite !column_map_column, Hn, Hc, Hk. simpl.
  split; [done |]. split; [done |]. split; [done |].
  split; [done |]. split.
  - unfold region_rows. rewrite !column_map_column, Hn, Hc, Hk. simpl.
    unfold Etl.extract_region_data. simpl.
    by apply zip_with_map_l.
  - intros Hlen1 Hlen2. unfold Etl.extract_region_data. simpl.
    rewrite map_region_name_rows; [done |]. rewrite length_zip. lia.
Qed.
End region_extraction.

(** ** Samples *)

Section further_samples.
Import Etl Sample Loader.

Lemma dimension_load_appends_fresh_keys_witness :
  let d := Dim.connect [Dim.Row 7 (RegionRow.Make "Europe West" "France" "Europe")] in
  ∃ new,
    Dim.rows (Dim.load region_natkey Dim.IsNone d Sample.regions) = Dim.rows d ++ new ∧
    (length new ≤ length Sample.regions)%nat ∧
    (∀ i r, new !! i = Some r → Dim.key r = Dim.maxid d + 1 + Z.of_nat i) ∧
    (NoDup (map Dim.key (Dim.rows d)) →
     NoDup (map Dim.key (Dim.rows (Dim.load region_natkey Dim.IsNone d Sample.regions)))).
Proof.
  intros d.
  apply (dimension_load_appends_fresh_keys region_natkey Dim.IsNone d Sample.regions).
  constructor; simpl.
  - lia.
  - repeat constructor; simpl; lia.
  - repeat constructor. set_solver.
  - apply map_Forall_empty.
Defined.

Lemma dimension_load_resolves_frame_witness :
  let d := Dim.connect [] in
  let table := Dim.rows (Dim.load (@Product.product_id num) Dim.NotTruthy d Sample.products) in
  (∀ k, is_Some (Dim.select Product.product_id table k) ↔
        is_Some (Dim.select Product.product_id (Dim.rows d) k) ∨
        k ∈ map Product.product_id Sample.products) ∧
  (∀ k keyval, Dim.select Product.product_id (Dim.rows d) k = Some keyval →
               Dim.select Product.product_id table k = Some keyval).
Proof.
  intros d table.
  apply (dimension_load_resolves_frame
           (@Product.product_id num) Dim.NotTruthy d Sample.products).
  constructor; simpl.
  - lia.
  - constructor.
  - constructor.
  - apply map_Forall_empty.
Defined.

Lemma dimension_load_first_row_wins_witness :
  let d := Dim.connect [] in
  let d' := Dim.load Customer.customer_id Dim.NotTruthy d Sample.customers in
  (∀ k, is_Some (Dim.select Customer.customer_id (Dim.rows d) k) →
        Dim.rows_of Customer.customer_id d' k = Dim.rows_of Customer.customer_id d k) ∧
  (∀ k a, Dim.select Customer.customer_id (Dim.rows d) k = None →
          List.find (fun a' => bool_decide (Customer.customer_id a' = k)) Sample.customers
          = Some a →
          ∃ keyval, Dim.rows_of Customer.customer_id d' k = [Dim.Row keyval a]).
Proof.
  intros d d'.
  apply (dimension_load_first_row_wins
           Customer.customer_id Dim.NotTruthy d Sample.customers).
  constructor; simpl.
  - lia.
  - constructor.
  - constructor.
  - apply map_Forall_empty.
Defined.

Lemma sample_dims_wf sales_df : dims_wf (loaded sales_df).
Proof.
  split; [| split; [| split]]; apply load_wf, connect_wf; constructor.
Qed.

Lemma fact_loop_admits_resolved_rows_witness :
  let sales_df := [ Sample.row "P1" "C1" NaN (PStr " North ");
                    Sample.row "P4" "C1" (Num 0) (PStr "north");
                    Sample.row "P2" "C2" (Num 10) (PStr "Mars") ] in
  let w := loaded sales_df in
  fact_sales (load_facts no_fault Sample.region_mapping Sample.valid_products sales_df w).2
  = fact_sales w ++
    omap (admitted_fact Sample.region_mapping Sample.valid_products w) sales_df ∧
  outcomes no_fault Sample.region_mapping Sample.valid_products sales_df w
  = map (fun row => Exited (expected_exit Sample.region_mapping Sample.valid_products w row))
        sales_df.
Proof.
  intros sales_df w.
  apply (fact_loop_admits_resolved_rows
           no_fault Sample.region_mapping Sample.valid_products (fun _ => eq_refl)
           sales_df w).
  apply sample_dims_wf.
Defined.

Lemma fact_loop_rerun_duplicates_facts_witness :
  let sales_df := [ Sample.row "P1" "C1" NaN (PStr " North ");
                    Sample.row "P2" "C2" (Num 10) (PStr "Mars") ] in
  let w := loaded sales_df in
  let load_facts := load_facts no_fault Sample.region_mapping Sample.valid_products in
  let new := omap (admitted_fact Sample.region_mapping Sample.valid_products w) sales_df in
  fact_sales (load_facts sales_df w).2 = fact_sales w ++ new ∧
  fact_sales (load_facts sales_df (load_facts sales_df w).2).2 = fact_sales w ++ new ++ new.
Proof.
  intros sales_df w load_facts.
  apply (fact_loop_rerun_duplicates_facts
           no_fault Sample.region_mapping Sample.valid_products (fun _ => eq_refl)
           sales_df w).
  apply sample_dims_wf.
Defined.

Lemma known_references_cost_one_statement_witness :
  let row := Sample.row "P1" "C1" (Num 0) (PStr "north") in
  let pre := [Sample.row "P4" "C1" (Num 0) (PStr "north")] in
  let w1 := (load_facts first_fails Sample.region_mapping Sample.valid_products
                        pre (loaded [row])).2 in
  ∃ pk dk ck rk w',
    Etl.process_row first_fails Sample.region_mapping Sample.valid_products row w1 =
      (Return (if first_fails (statements w1)
               then Caught (DatabaseError (statements w1))
               else Exited ExitLoaded), w') ∧
    statements w' = S (statements w1) ∧
    fact_sales w' = fact_sales w1 ++
      (if first_fails (statements w1) then []
       else [with_measures (MkKeyRefs (Some pk) (Some dk) (Some ck) (Some rk)) row]).
Proof.
  intros row pre w1.
  apply (known_references_cost_one_statement
           first_fails Sample.region_mapping Sample.empty_tables Sample.products
           (create_date_dimension [row]) (transform_customer_data Sample.customers)
           (Etl.extract_region_data Sample.regions).1 pre row "North America").
  - refine (bool_decide_unpack _ _). vm_compute. exact I.
  - refine (bool_decide_unpack _ _). vm_compute. exact I.
  - refine (bool_decide_unpack _ _). vm_compute. exact I.
  - vm_compute. reflexivity.
  - refine (bool_decide_unpack _ _). vm_compute. exact I.
Defined.

Lemma pipeline_loads_known_references_witness :
  let ex := MkExtract [ raw_sale_without_discount;
                        sale "S2" "P4" "C1" "2024-02-29" (Num 200) (Num 19999) (Num 0)
                             (PStr "north") ]
                      Sample.customers Sample.products Sample.regions in
  let sales_df := [ Sample.row "P1" "C1" NaN (PStr "north");
                    Sale.Make "S2" "P4" "C1" (19782 * Calendar.ns_per_day)
                              (Num 200) (Num 19999) (Num 0) (PStr "north") (Num 39998) ] in
  ∃ w new,
    run_etl_pipeline no_fault (MkTables [] [] [] [] []) ex = Some w ∧
    fact_sales w = [] ++ new ∧
    map (fun fact_row => (FactRow.quantity fact_row, FactRow.unit_price fact_row,
                          FactRow.discount fact_row, FactRow.total_amount fact_row)) new
    = map (fun row => (Sale.quantity row, Sale.unit_price row,
                       Sale.discount row, Sale.total_amount row))
          (filter (references_known ex) sales_df) ∧
    fact_count w = length (filter (references_known ex) sales_df) ∧
    (fact_count w + skipped_records w = length sales_df)%nat.
Proof.
  intros ex sales_df.
  apply (pipeline_loads_known_references no_fault (fun _ => eq_refl) ex [] sales_df).
  reflexivity.
Defined.

Lemma extract_sales_data_keeps_cells_witness :
  let df := [ ("sale_id", ["S1"; "S2"]); ("region", ["north"; "Mars"]);
              ("product_id", ["P1"; "P4"]); ("customer_id", ["C1"; "C2"]);
              ("order_date", ["2024-02-29"; "2024-03-01"]); ("quantity", ["2"; "1"]);
              ("unit_price", ["199.99"; "3.99"]); ("discount", [""; "0.1"]);
              ("channel", ["web"; "shop"]) ] in
  let out := [ ("order_id", ["S1"; "S2"]); ("product_id", ["P1"; "P4"]);
               ("customer_id", ["C1"; "C2"]);
               ("order_date", ["2024-02-29"; "2024-03-01"]); ("quantity", ["2"; "1"]);
               ("unit_price", ["199.99"; "3.99"]); ("discount", [""; "0.1"]);
               ("region", ["north"; "Mars"]) ] in
  ∃ cells : list string, Frame.column out "order_id" = Some cells ∧
    Frame.column df (if decide ("order_id" = "order_id" ∧ "order_id" ∉ Frame.columns df)
                     then "sale_id" else "order_id") = Some cells.
Proof.
  intros df out.
  apply (extract_sales_data_keeps_cells df out).
  - reflexivity.
  - refine (bool_decide_unpack _ _). vm_compute. exact I.
Defined.

Lemma extract_region_data_strips_names_witness :
  let df := [ ("region", [" Europe West"; "Asia Pacific "; "Europe West"]);
              ("country", ["France"; "Japan"; "Spain"]);
              ("continent", ["Europe"; "Asia"; "Europe"]) ] in
  let out := [ ("region_name", ["Europe West"; "Asia Pacific"; "Europe West"]);
               ("country", ["France"; "Japan"; "Spain"]);
               ("continent", ["Europe"; "Asia"; "Europe"]) ] in
  let region_mapping :=
    Region.region_mapping [" Europe West"; "Asia Pacific "; "Europe West"] in
  ∃ names countries continents,
    Frame.column df (if decide ("region_name" ∈ Frame.columns df)
                     then "region_name" else "region") = Some names ∧
    Frame.column df "country" = Some countries ∧
    Frame.column df "continent" = Some continents ∧
    Frame.column out "region_name" = Some (map PyStr.strip names) ∧
    Frame.column out "country" = Some countries ∧
    Frame.column out "continent" = Some continents ∧
    region_mapping = Region.region_mapping names ∧
    let rows := zip_with (fun name cc => RegionRow.Make name cc.1 cc.2)
                         names (zip countries continents) in
    Extract.region_rows out = (Etl.extract_region_data rows).1 ∧
    (length names = length countries → length names = length continents →
     region_mapping = (Etl.extract_region_data rows).2).
Proof.
  intros df out region_mapping.
  apply (extract_region_data_strips_names df out region_mapping).
  reflexivity.
Defined.
End further_samples.
